(** * Auto-Organizer: a shallow embedding of [organizer.py]

    The development follows the layout of the script:

    - [Text]: Python strings, [str.lower], [os.path.splitext] and the
      decimal rendering used by the f-strings;
    - [Classifier]: the [CATEGORIES] table and [get_category];
    - [Organizer]: a two-level model of the target directory and
      [organize_directory] itself, with its printed lines.

    Strings are Rocq [string]s whose characters are read as the code points
    below 256; file names are the names returned by [os.listdir], which
    never contain the path separator.

    The file system is seen from the directory being organised: its
    entries in listing order and, for each folder among them, the names it
    holds. Two things are left to the environment and enter the run as
    functions: whether creating a missing folder is refused, and whether a
    move is refused; a refused move leaves the directory as it was. The
    other calls ([os.listdir], the [os.path] tests) do not raise. *)

From Stdlib Require Import ZArith Ascii String List Lia.
From stdpp Require Import base decidable option strings gmap list pretty sorting.

Local Open Scope Z_scope.

(* ===================================================================== *)
(** ** Strings *)
(* ===================================================================== *)

Module Text.

(** [c in s] for a one-character needle. *)
Fixpoint contains (c : ascii) (s : string) : bool :=
  match s with
  | EmptyString => false
  | String x s' => if Ascii.eqb x c then true else contains c s'
  end.

(** Every character of [s] is [c]. *)
Fixpoint only (c : ascii) (s : string) : bool :=
  match s with
  | EmptyString => true
  | String x s' => if Ascii.eqb x c then only c s' else false
  end.

(** [str.lower] on one code point below 256: the ASCII capitals and the
    Latin-1 capitals (U+00C0..U+00DE without the multiplication sign) move
    up by 32, every other code point is left as it is. *)
Definition lower_char (c : ascii) : ascii :=
  let n := N_of_ascii c in
  if ((65 <=? n) && (n <=? 90) || (192 <=? n) && (n <=? 214)
      || (216 <=? n) && (n <=? 222))%N
  then ascii_of_N (n + 32) else c.

(** [s.lower()] *)
Fixpoint lower (s : string) : string :=
  match s with
  | EmptyString => EmptyString
  | String c s' => String (lower_char c) (lower s')
  end.

(** [p.rfind(c)] for a one-character needle: the highest index at which
    [c] occurs, [-1] when it does not occur. *)
Fixpoint rfind (c : ascii) (p : string) : Z :=
  match p with
  | EmptyString => -1
  | String x q =>
      let r := rfind c q in
      if 0 <=? r then r + 1 else if Ascii.eqb x c then 0 else -1
  end.

(** The [while filenameIndex < dotIndex] loop of [genericpath._splitext]:
    [true] when one of [p[i]], ..., [p[i+n-1]] differs from [c], which is
    where the loop returns the split. *)
Fixpoint differs_within (c : ascii) (p : string) (i n : nat) : bool :=
  match n with
  | O => false
  | S n' =>
      match String.get i p with
      | Some x => if Ascii.eqb x c then differs_within c p (S i) n' else true
      | None => true
      end
  end.

(** [os.path.splitext(p)], that is [genericpath._splitext(p, '/', None, '.')]:
    the extension starts at the last dot, provided that dot comes after the
    last separator and some character between the two is not a dot. *)
Definition splitext (p : string) : string * string :=
  let sepIndex := rfind "/" p in
  let dotIndex := rfind "." p in
  if sepIndex <? dotIndex then
    let filenameIndex := Z.to_nat (sepIndex + 1) in
    if differs_within "." p filenameIndex (Z.to_nat dotIndex - filenameIndex)
    then (String.substring 0 (Z.to_nat dotIndex) p,
          String.substring (Z.to_nat dotIndex)
                           (String.length p - Z.to_nat dotIndex) p)
    else (p, "")
  else (p, "").

(** [f"{base_name}_{counter}{file_extension}"] *)
Definition renamed (base_name : string) (counter : nat) (file_extension : string)
  : string :=
  base_name +:+ "_" +:+ pretty counter +:+ file_extension.

End Text.

(* ===================================================================== *)
(** ** The classifier *)
(* ===================================================================== *)

Module Classifier.

(** The table, in the insertion order of the dictionary literal. *)
Definition CATEGORIES : list (string * list string) :=
  [ ("Images", [".jpg"; ".jpeg"; ".png"; ".gif"; ".bmp"; ".tiff"; ".webp"]);
    ("Documents", [".pdf"; ".docx"; ".doc"; ".txt"; ".xlsx"; ".xls"; ".pptx";
                   ".ppt"; ".odt"; ".rtf"; ".md"]);
    ("Audio", [".mp3"; ".wav"; ".aac"; ".flac"; ".ogg"; ".m4a"]);
    ("Video", [".mp4"; ".mov"; ".avi"; ".mkv"; ".flv"; ".wmv"; ".webm"]);
    ("Archives", [".zip"; ".rar"; ".7z"; ".tar"; ".gz"; ".bz2"; ".iso"]);
    ("Executables", [".exe"; ".msi"; ".dmg"; ".app"; ".bat"; ".sh"]);
    ("Code", [".py"; ".js"; ".html"; ".css"; ".java"; ".c"; ".cpp"; ".h";
              ".cs"; ".go"; ".rb"; ".php"; ".json"; ".xml"; ".yml"; ".yaml"]) ].

(** The [for category, extensions in ...items()] loop with its default
    [return "Other"]. *)
Fixpoint scan (ext : string) (items : list (string * list string)) : string :=
  match items with
  | [] => "Other"
  | (category, extensions) :: rest =>
      if bool_decide (ext ∈ extensions) then category else scan ext rest
  end.

Definition get_category (file_extension : string) : string :=
  let ext := Text.lower file_extension in
  scan ext CATEGORIES.

(** [list(CATEGORIES.keys()) + ["Other"]] *)
Definition all_categories_names : list string :=
  CATEGORIES.*1 ++ ["Other"].

(** No extension of one row of a table occurs in a later row. *)
Fixpoint clash_free (items : list (string * list string)) : Prop :=
  match items with
  | [] => True
  | (_, extensions) :: rest =>
      Forall (λ e, Forall (λ row, e ∉ row.2) rest) extensions
      ∧ clash_free rest
  end.

End Classifier.

(* ===================================================================== *)
(** ** The organizer *)
(* ===================================================================== *)

Module Organizer.
Import Text Classifier.

(** *** The directory being organised

    The run only looks at the directory it is given and at the names
    directly inside the category folders, so the model has two levels: the
    entries of the target directory, in the order [os.listdir] reports
    them, and for every folder among them the names it holds. *)

(** What a name inside a folder refers to. *)
Inductive inner :=
| Stored (data : string)
| Nested.

Inductive entry :=
| File (data : string)                (* [os.path.isfile] holds *)
| Folder (inside : gmap string inner) (* [os.path.isdir] holds *)
| Special.                            (* neither: fifo, socket, dangling link *)

Definition listing := list (string * entry).

(** What the [path] argument refers to. *)
Inductive target :=
| Absent
| NotDir
| Dir (entries : listing).

Global Instance inner_eq_dec : EqDecision inner.
Proof. solve_decision. Defined.

Fixpoint entry_of (name : string) (l : listing) : option entry :=
  match l with
  | [] => None
  | (n, e) :: rest => if decide (n = name) then Some e else entry_of name rest
  end.

Fixpoint unlink (name : string) (l : listing) : listing :=
  match l with
  | [] => []
  | (n, e) :: rest =>
      if decide (n = name) then unlink name rest else (n, e) :: unlink name rest
  end.

Fixpoint replace (name : string) (e' : entry) (l : listing) : listing :=
  match l with
  | [] => []
  | (n, e) :: rest =>
      if decide (n = name) then (n, e') :: rest else (n, e) :: replace name e' rest
  end.

Definition isdir (l : listing) (name : string) : bool :=
  match entry_of name l with Some (Folder _) => true | _ => false end.

Definition isfile (l : listing) (name : string) : bool :=
  match entry_of name l with Some (File _) => true | _ => false end.

(** [os.path.exists(os.path.join(path, category, name))] *)
Definition exists_in (l : listing) (category name : string) : bool :=
  match entry_of category l with
  | Some (Folder inside) => bool_decide (is_Some (inside !! name))
  | _ => false
  end.

(** A well-formed directory has no two entries of the same name. *)
Definition well_formed (l : listing) : Prop := NoDup l.*1.

(** What provisioning may do to a directory: entries stay as they are,
    and whatever is new is not a regular file. *)
Definition extends (l l' : listing) : Prop :=
  (∀ name e, entry_of name l = Some e → entry_of name l' = Some e)
  ∧ (∀ name data, entry_of name l' = Some (File data) →
                  entry_of name l = Some (File data))
  ∧ (well_formed l → well_formed l').

(** What is stored in the folders of [l] is stored, unchanged, in [l']. *)
Definition kept (l l' : listing) : Prop :=
  ∀ c inside name x,
    entry_of c l = Some (Folder inside) → inside !! name = Some x →
    ∃ inside', entry_of c l' = Some (Folder inside') ∧ inside' !! name = Some x.

(** *** Exceptions and printed lines *)

(** The three classes the handlers of the move distinguish;
    [shutil.Error] is tried first, then [OSError], then [Exception]. *)
Inductive exn :=
| ShutilError (text : string)
| OSError (text : string)
| OtherException (text : string).

(** One constructor per [print] call of [organize_directory]. *)
Inductive line :=
| Starting
| ErrorNotADirectory
| PleaseProvide
| Ensuring
| Ensured (category : string)
| Blank
| Processing
| NoFilesFound
| Moved (item category : string)
| MovedRenamed (item category destination_file_name : string)
| PermissionErrorMoving (item category text : string)
| OSErrorMoving (item category text : string)
| UnexpectedErrorMoving (item text : string)
| Complete
| SummaryHeader
| CountLine (category : string) (count : nat)
| NoFilesMoved
| NoFilesMovedFromRoot
| SummaryFooter.

(** The state the per-file loop threads: the directory, the dictionary
    [moved_files_count] and what has been printed so far. *)
Record state := State {
  disk : listing;
  moved_files_count : gmap string nat;
  printed : list line
}.

(** How a call ends. *)
Inductive outcome :=
| Rejected                                (* [return] after the error lines *)
| Raised (e : exn)                        (* [os.makedirs] raised *)
| NothingToDo (counts : gmap string nat)  (* [return] on an empty snapshot *)
| Finished (counts : gmap string nat).    (* the summary was printed *)

Record result := Result {
  final : target;
  output : list line;
  how : outcome
}.

(** The report of a call: the counters as they stand when it ends; there
    are none when the call ends before the dictionary is built. *)
Definition report (r : result) : gmap string nat :=
  match how r with
  | NothingToDo counts | Finished counts => counts
  | Rejected | Raised _ => ∅
  end.

(** [{category: 0 for category in all_categories_names}] *)
Definition initial_counts : gmap string nat :=
  list_to_map ((λ category, (category, 0%nat)) <$> all_categories_names).

(** [[item for item in os.listdir(path) if os.path.isfile(...)]] *)
Definition files_to_process (l : listing) : list string :=
  filter (λ item, isfile l item) l.*1.

(** The summary loop over [sorted(moved_files_count.keys())]: the lines
    printed and [total_moved]. The categories are keys of the dictionary,
    so the lookup finds them. *)
Fixpoint summary_loop (counts : gmap string nat) (sorted_categories : list string)
    (total_moved : nat) : list line * nat :=
  match sorted_categories with
  | [] => ([], total_moved)
  | category :: rest =>
      match counts !! category with
      | Some (S _ as count) =>
          let '(lines, total) := summary_loop counts rest (total_moved + count) in
          (CountLine category count :: lines, total)
      | _ => summary_loop counts rest total_moved
      end
  end.

Definition sorted_keys (counts : gmap string nat) : list string :=
  merge_sort String.le (map_to_list counts).*1.

Definition summary (counts : gmap string nat) : list line :=
  let '(lines, total_moved) := summary_loop counts (sorted_keys counts) 0 in
  [Complete; SummaryHeader] ++ lines
  ++ (if decide (total_moved = 0%nat) then [NoFilesMovedFromRoot] else [])
  ++ [SummaryFooter].

(** The item named by a per-file line. *)
Definition item_of (ln : line) : option string :=
  match ln with
  | Moved item _ | MovedRenamed item _ _ | PermissionErrorMoving item _ _
  | OSErrorMoving item _ _ | UnexpectedErrorMoving item _ => Some item
  | _ => None
  end.

(** The items of the per-file lines, in the order printed. *)
Definition handled (out : list line) : list string := omap item_of out.

(** Whether a line reports a move into [category]. *)
Definition moved_into (category : string) (ln : line) : bool :=
  match ln with
  | Moved _ c | MovedRenamed _ c _ => bool_decide (c = category)
  | _ => false
  end.

(** Whether a line reports a file that could not be moved. *)
Definition is_failure (ln : line) : bool :=
  match ln with
  | PermissionErrorMoving _ _ _ | OSErrorMoving _ _ _
  | UnexpectedErrorMoving _ _ => true
  | _ => false
  end.

(** The number of moves into [category] a log reports. *)
Definition moves_into (category : string) (out : list line) : nat :=
  length (filter (λ ln, moved_into category ln) out).

(** What a folder of the directory holds under [name]. *)
Definition held (l : listing) (category name : string) : option inner :=
  match entry_of category l with
  | Some (Folder inside) => inside !! name
  | _ => None
  end.

(** The category the loop body computes for [item]. *)
Definition category_of (item : string) : string :=
  get_category (splitext item).2.


(** Whether provisioning can ensure the folder [c] in [l]: it is there, or
    the name is free and creating it is not refused. *)
Definition ensurable (mkdir_fault : string → option exn) (l : listing)
    (c : string) : Prop :=
  isdir l c = true ∨ (entry_of c l = None ∧ mkdir_fault c = None).

(** What a run prints when every folder is ensured and the snapshot is
    empty. *)
Definition nothing_to_do : list line :=
  (([Starting; Ensuring] ++ (Ensured <$> all_categories_names))
   ++ [Blank; Processing])
  ++ [NoFilesFound; Complete; SummaryHeader; NoFilesMoved; SummaryFooter].

(** The categories of the count lines, in the order printed. *)
Definition counted (out : list line) : list string :=
  omap (λ ln, match ln with CountLine c _ => Some c | _ => None end) out.

Section Run.

(** What the environment refuses: [mkdir_fault name] is the exception
    [os.mkdir] raises when asked to create the missing folder [name], and
    [move_fault item category name] the one [shutil.move] raises when
    asked to move [item] to [category/name]. A refused move leaves the
    directory as it was. *)
Variable mkdir_fault : string → option exn.
Variable move_fault : string → string → string → option exn.

(** [os.makedirs(os.path.join(path, category_name), exist_ok=True)]:
    an existing folder is accepted, any other existing entry is not. *)
Definition makedirs (category_name : string) (l : listing) : exn + listing :=
  match entry_of category_name l with
  | Some (Folder _) => inr l
  | Some _ => inl (OSError "File exists")
  | None =>
      match mkdir_fault category_name with
      | Some e => inl e
      | None => inr (l ++ [(category_name, Folder ∅)])
      end
  end.

(** The provisioning loop; an exception leaves it with what was created
    and printed up to then. *)
Fixpoint provision (names : list string) (l : listing) (out : list line)
  : exn * listing * list line + listing * list line :=
  match names with
  | [] => inr (l, out)
  | category_name :: rest =>
      match makedirs category_name l with
      | inl e => inl (e, l, out)
      | inr l' => provision rest l' (out ++ [Ensured category_name])
      end
  end.

(** The [while os.path.exists(destination_path)] loop. It is run with a
    bound on the number of tests of the condition; [None] is the bound
    being reached. *)
Fixpoint probe (bound : nat) (l : listing) (category base_name file_extension : string)
    (destination_file_name : string) (counter : nat) : option string :=
  match bound with
  | O => None
  | S bound' =>
      if exists_in l category destination_file_name
      then probe bound' l category base_name file_extension
             (renamed base_name counter file_extension) (S counter)
      else Some destination_file_name
  end.

(** One more test than there are names in the destination folder, and
    one for the name the file arrives with. *)
Definition probe_bound (l : listing) (category : string) : nat :=
  match entry_of category l with
  | Some (Folder inside) => size inside + 2
  | _ => 1
  end.

(** [shutil.move(item_path, destination_path)] for a regular file and a
    destination that does not exist. *)
Definition move (l : listing) (item data category name : string) : exn + listing :=
  match move_fault item category name with
  | Some e => inl e
  | None =>
      match entry_of category l with
      | Some (Folder inside) =>
          inr (replace category (Folder (<[name := Stored data]> inside))
                 (unlink item l))
      | _ => inl (OSError "No such file or directory")
      end
  end.

(** The [try] block with its three handlers. The counter is updated
    inside the block, so a missing key would be caught by the last
    handler, after the file has been moved. *)
Definition deliver (st : state) (item data category destination_file_name : string)
  : state :=
  let l := disk st in
  match move l item data category destination_file_name with
  | inr l' =>
      let moved :=
        if decide (item ≠ destination_file_name)
        then MovedRenamed item category destination_file_name
        else Moved item category in
      match moved_files_count st !! category with
      | Some count =>
          State l' (<[category := S count]> (moved_files_count st))
            (printed st ++ [moved])
      | None => (* [KeyError], whose text is the key *)
          State l' (moved_files_count st)
            (printed st ++ [moved; UnexpectedErrorMoving item category])
      end
  | inl (ShutilError text) =>
      State l (moved_files_count st)
        (printed st ++ [PermissionErrorMoving item category text])
  | inl (OSError text) =>
      State l (moved_files_count st)
        (printed st ++ [OSErrorMoving item category text])
  | inl (OtherException text) =>
      State l (moved_files_count st)
        (printed st ++ [UnexpectedErrorMoving item text])
  end.

(** The body of [for item in files_to_process]. *)
Definition process_file (item : string) (st : state) : option state :=
  let l := disk st in
  if isdir l item && bool_decide (item ∈ all_categories_names) then Some st
  else
    match entry_of item l with
    | Some (File data) =>
        let '(base_name, file_extension) := splitext item in
        let category := get_category file_extension in
        destination_file_name ←
          probe (probe_bound l category) l category base_name file_extension item 1;
        Some (deliver st item data category destination_file_name)
    | _ => Some st
    end.

Fixpoint process_all (items : list string) (st : state) : option state :=
  match items with
  | [] => Some st
  | item :: rest => st' ← process_file item st; process_all rest st'
  end.

Definition organize_directory (path : target) : option result :=
  match path with
  | Dir l =>
      match provision all_categories_names l [Starting; Ensuring] with
      | inl (e, l', out) => Some (Result (Dir l') out (Raised e))
      | inr (l1, out) =>
          let out := out ++ [Blank; Processing] in
          let snapshot := files_to_process l1 in
          match snapshot with
          | [] =>
              Some (Result (Dir l1)
                      (out ++ [NoFilesFound; Complete; SummaryHeader;
                               NoFilesMoved; SummaryFooter])
                      (NothingToDo initial_counts))
          | _ :: _ =>
              st ← process_all snapshot (State l1 initial_counts out);
              Some (Result (Dir (disk st))
                      (printed st ++ summary (moved_files_count st))
                      (Finished (moved_files_count st)))
          end
      end
  | _ => Some (Result path [Starting; ErrorNotADirectory; PleaseProvide] Rejected)
  end.

End Run.

End Organizer.

(* ===================================================================== *)
(** ** Sample directories and environments *)
(* ===================================================================== *)

Module Demo.
Import Organizer.

(** An environment that refuses nothing. *)
Definition quiet_mkdir : string → option exn := λ _, None.
Definition quiet_move : string → string → string → option exn := λ _ _ _, None.

(** An environment in which ["notes.txt"] cannot be moved. *)
Definition locked_move : string → string → string → option exn :=
  λ item _ _,
    if decide (item = "notes.txt") then Some (ShutilError "denied") else None.

(** Three files of three categories, a [Documents] folder that already
    holds a [notes.txt], and a folder that is not a category. *)
Definition downloads : listing :=
  [ ("photo.JPG", File "p");
    ("notes.txt", File "n");
    ("archive.unknowncustomext", File "a");
    ("Documents", Folder {[ "notes.txt" := Stored "old" ]});
    ("sub", Folder ∅) ].


(** [downloads] once the missing category folders have been created. *)
Definition downloads_ready : listing :=
  downloads
  ++ [ ("Images", Folder ∅); ("Audio", Folder ∅); ("Video", Folder ∅);
       ("Archives", Folder ∅); ("Executables", Folder ∅); ("Code", Folder ∅);
       ("Other", Folder ∅) ].

(** A directory in which a regular file has the name of a category. *)
Definition taken : listing := [ ("Other", File "x") ].

(** A state of the loop with one file whose name is taken. *)
Definition colliding : state :=
  State [ ("report.pdf", File "new");
          ("Documents", Folder {[ "report.pdf" := Stored "old" ]}) ]
        initial_counts [].

(** What is stored under [category/name]. *)
Definition stored (t : target) (category name : string) : option inner :=
  match t with
  | Dir l =>
      match entry_of category l with
      | Some (Folder inside) => inside !! name
      | _ => None
      end
  | _ => None
  end.

End Demo.

Example lower_JPG : Text.lower ".JPG" = ".jpg".
Proof. reflexivity. Qed.

Example splitext_pdf : Text.splitext "report.pdf" = ("report", ".pdf").
Proof. reflexivity. Qed.

Example splitext_two_dots : Text.splitext "a.tar.gz" = ("a.tar", ".gz").
Proof. reflexivity. Qed.

Example splitext_dots : Text.splitext "..a" = ("..a", "").
Proof. reflexivity. Qed.

Example splitext_trailing : Text.splitext "a." = ("a", ".").
Proof. reflexivity. Qed.

Example splitext_hidden_ext : Text.splitext ".a.b" = (".a", ".b").
Proof. reflexivity. Qed.

Example renamed_pdf : Text.renamed "report" 12 ".pdf" = "report_12.pdf".
Proof. vm_compute. reflexivity. Qed.

Example category_JPG : Classifier.get_category ".JPG" = "Images".
Proof. vm_compute. reflexivity. Qed.

Example category_unknown : Classifier.get_category ".unknowncustomext" = "Other".
Proof. vm_compute. reflexivity. Qed.

Example category_none : Classifier.get_category "" = "Other".
Proof. vm_compute. reflexivity. Qed.

(* ===================================================================== *)
(** ** Facts about strings *)
(* ===================================================================== *)

Section TextFacts.
Import Text.

Lemma str_app_cons x (a b : string) : String x a +:+ b = String x (a +:+ b).
Proof. reflexivity. Qed.

Lemma str_app_nil_l (b : string) : "" +:+ b = b.
Proof. reflexivity. Qed.

(** [String.append] is kept folded by [simpl]; this unfolds it on
    constructors first. *)
Ltac sapp := rewrite ?str_app_cons, ?str_app_nil_l; simpl.

Lemma str_length_app (a b : string) :
  String.length (a +:+ b) = (String.length a + String.length b)%nat.
Proof. induction a as [|x a IH]; sapp; [done | by rewrite IH]. Qed.

Lemma str_app_nil_r (a : string) : a +:+ "" = a.
Proof. induction a as [|x a IH]; sapp; [done | by rewrite IH]. Qed.

Lemma str_app_assoc (a b c : string) : (a +:+ b) +:+ c = a +:+ b +:+ c.
Proof. induction a as [|x a IH]; sapp; [done | by rewrite IH]. Qed.

Lemma contains_app c (a b : string) :
  contains c (a +:+ b) = contains c a || contains c b.
Proof.
  induction a as [|x a IH]; sapp; [done|].
  destruct (Ascii.eqb x c); [done | exact IH].
Qed.

Lemma only_app c (a b : string) : only c (a +:+ b) = only c a && only c b.
Proof.
  induction a as [|x a IH]; sapp; [done|].
  destruct (Ascii.eqb x c); [exact IH | done].
Qed.

(** A string made of one character reads the same from both ends. *)
Lemma only_snoc c (d : string) :
  only c d = true → String c d = d +:+ String c "".
Proof.
  induction d as [|x d IH]; sapp; [done|].
  destruct (Ascii.eqb_spec x c) as [->|]; [|done].
  intros H. by rewrite <- IH.
Qed.

Lemma rfind_lower_bound c (s : string) : -1 ≤ rfind c s.
Proof.
  induction s as [|x s IH]; sapp; [lia|].
  destruct (0 <=? rfind c s) eqn:E; [lia|].
  destruct (Ascii.eqb x c); lia.
Qed.

Lemma rfind_absent c (s : string) : contains c s = false → rfind c s = -1.
Proof.
  induction s as [|x s IH]; sapp; [done|].
  destruct (Ascii.eqb x c); [done|].
  intros H. rewrite (IH H). done.
Qed.

(** The index of the last occurrence. *)
Lemma rfind_last c (pre suf : string) :
  contains c suf = false →
  rfind c (pre +:+ String c suf) = Z.of_nat (String.length pre).
Proof.
  intros Hsuf. induction pre as [|x pre IH]; sapp.
  - rewrite (rfind_absent _ _ Hsuf). simpl. by rewrite Ascii.eqb_refl.
  - rewrite IH. destruct (0 <=? Z.of_nat (String.length pre)) eqn:E; lia.
Qed.

Lemma rfind_before c (a rest : string) :
  contains c rest = false → rfind c (a +:+ rest) < Z.of_nat (String.length a).
Proof.
  intros Hrest. induction a as [|x a IH]; sapp.
  - rewrite (rfind_absent _ _ Hrest). lia.
  - destruct (0 <=? rfind c (a +:+ rest)) eqn:E; [lia|].
    destruct (Ascii.eqb x c); lia.
Qed.

Lemma differs_within_shift c x (p : string) i n :
  differs_within c (String x p) (S i) n = differs_within c p i n.
Proof.
  revert i. induction n as [|n IH]; intros i; sapp; [done|].
  destruct (String.get i p) as [y|]; [|done].
  destruct (Ascii.eqb y c); [apply IH | done].
Qed.

(** Scanning exactly a prefix finds a difference iff the prefix has one. *)
Lemma differs_within_prefix c (pre rest : string) :
  differs_within c (pre +:+ rest) 0 (String.length pre) = negb (only c pre).
Proof.
  induction pre as [|x pre IH]; sapp; [done|].
  destruct (Ascii.eqb x c); [|done].
  by rewrite differs_within_shift.
Qed.

Lemma differs_within_uniform c (dots rest : string) n :
  only c dots = true → (n ≤ String.length dots)%nat →
  differs_within c (dots +:+ rest) 0 n = false.
Proof.
  revert n. induction dots as [|x dots IH]; intros n; sapp.
  - intros _ Hn. by replace n with 0%nat by lia.
  - destruct (Ascii.eqb x c) eqn:E; [|done]. intros Hd Hn.
    destruct n as [|n]; sapp; [done|].
    rewrite E, differs_within_shift. apply IH; [done | lia].
Qed.

Lemma substring_all (s : string) : String.substring 0 (String.length s) s = s.
Proof. induction s as [|x s IH]; sapp; [done | by rewrite IH]. Qed.

Lemma substring_prefix (a b : string) :
  String.substring 0 (String.length a) (a +:+ b) = a.
Proof.
  induction a as [|x a IH]; sapp; [by destruct b | by rewrite IH].
Qed.

Lemma substring_suffix (a b : string) :
  String.substring (String.length a) (String.length b) (a +:+ b) = b.
Proof. induction a as [|x a IH]; sapp; [apply substring_all | exact IH]. Qed.

(** The split at the last dot, when something other than a dot comes
    before it. *)
Lemma splitext_dotted (pre suf : string) :
  contains "/" (pre +:+ String "." suf) = false →
  contains "." suf = false →
  only "." pre = false →
  splitext (pre +:+ String "." suf) = (pre, String "." suf).
Proof.
  intros Hsep Hsuf Hpre. unfold splitext.
  rewrite (rfind_absent _ _ Hsep), (rfind_last _ _ _ Hsuf).
  assert ((-1 <? Z.of_nat (String.length pre)) = true) as ->
    by (apply Z.ltb_lt; lia).
  change (Z.to_nat (-1 + 1)) with 0%nat.
  rewrite Nat2Z.id, Nat.sub_0_r, differs_within_prefix, Hpre. simpl negb. cbv iota.
  rewrite substring_prefix. f_equal.
  rewrite str_length_app, Nat.add_comm, Nat.add_sub.
  apply substring_suffix.
Qed.

(** No split when every dot of the name is a leading one. *)
Lemma splitext_undotted (dots rest : string) :
  contains "/" (dots +:+ rest) = false →
  only "." dots = true →
  contains "." rest = false →
  splitext (dots +:+ rest) = (dots +:+ rest, "").
Proof.
  intros Hsep Hdots Hrest. unfold splitext.
  rewrite (rfind_absent _ _ Hsep).
  pose proof (rfind_before "." dots rest Hrest) as Hlt.
  pose proof (rfind_lower_bound "." (dots +:+ rest)) as Hge.
  destruct (-1 <? rfind "." (dots +:+ rest)) eqn:E; [|done].
  change (Z.to_nat (-1 + 1)) with 0%nat.
  rewrite Nat.sub_0_r, differs_within_uniform; [done | done | lia].
Qed.

(** Every name has one of the two shapes. *)
Lemma dot_shape (name : string) :
  (∃ dots rest, name = dots +:+ rest ∧ only "." dots = true
                ∧ contains "." rest = false)
  ∨ (∃ pre suf, name = pre +:+ String "." suf ∧ only "." pre = false
                ∧ contains "." suf = false).
Proof.
  induction name as [|x s IH].
  - left. by exists "", "".
  - destruct IH as [(dots & rest & -> & Hd & Hr)|(pre & suf & -> & Hp & Hs)].
    + destruct (Ascii.eqb x ".") eqn:E.
      * left. exists (String x dots), rest. sapp. by rewrite E.
      * destruct dots as [|y dots].
        -- left. exists "", (String x rest). sapp. by rewrite E.
        -- right. simpl in Hd.
           destruct (Ascii.eqb_spec y ".") as [->|]; [|done].
           exists (String x dots), rest. rewrite !str_app_cons. simpl. rewrite E.
           split; [|done]. f_equal.
           rewrite <- str_app_cons, (only_snoc _ _ Hd), str_app_assoc. done.
    + right. exists (String x pre), suf. sapp.
      split; [done|]. split; [|done].
      destruct (Ascii.eqb x "."); done.
Qed.

(** The digits of a counter are neither dots nor separators. *)
Lemma pretty_N_go_contains c (x : N) (s : string) :
  (∀ d : N, pretty_N_char d ≠ c) →
  contains c s = false → contains c (pretty_N_go x s) = false.
Proof.
  intros Hc. revert s.
  induction (N.lt_wf_0 x) as [x _ IH]. intros s Hs.
  destruct (decide (x = 0%N)) as [->|Hx]; [by rewrite pretty_N_go_0|].
  rewrite pretty_N_go_step by lia.
  apply IH; [apply N.div_lt; lia|].
  simpl. destruct (Ascii.eqb_spec (pretty_N_char (x `mod` 10)) c) as [E|]; [|done].
  by destruct (Hc _ E).
Qed.

Lemma pretty_nat_contains c (n : nat) :
  (∀ d : N, pretty_N_char d ≠ c) → contains c (pretty n) = false.
Proof.
  intros Hc. unfold pretty, pretty_nat, pretty, pretty_N.
  case_decide.
  - cbv [contains]. destruct (Ascii.eqb_spec "0"%char c) as [E|]; [|done].
    by destruct (Hc 0%N).
  - by apply pretty_N_go_contains.
Qed.

Lemma digit_not_dot (d : N) : pretty_N_char d ≠ "."%char.
Proof. unfold pretty_N_char. by repeat case_match. Qed.

Lemma digit_not_sep (d : N) : pretty_N_char d ≠ "/"%char.
Proof. unfold pretty_N_char. by repeat case_match. Qed.

End TextFacts.

(* ===================================================================== *)
(** ** Splitting file names *)
(* ===================================================================== *)

Section Splitting.
Import Text Classifier.

(** C8: for a file name (a name without the path separator),
    [os.path.splitext] cuts at the last dot when something other than a
    dot precedes it; a name without a dot, and more generally a name
    whose dots are all leading ones, keeps an empty extension and is its
    own base name; [".gitignore"] is such a name. Base name and
    extension always concatenate to the name. *)
Theorem splitext_standard (name : string) :
  contains "/" name = false →
  fst (splitext name) +:+ snd (splitext name) = name
  ∧ (∀ pre suf, name = pre +:+ String "." suf →
       only "." pre = false → contains "." suf = false →
       splitext name = (pre, String "." suf))
  ∧ (contains "." name = false → splitext name = (name, ""))
  ∧ (∀ dots rest, name = dots +:+ rest →
       only "." dots = true → contains "." rest = false →
       splitext name = (name, ""))
  ∧ splitext ".gitignore" = (".gitignore", "").
Proof.
  intros Hsep. split; [|split; [|split; [|split]]].
  - destruct (dot_shape name) as [(d & r & -> & Hd & Hr)|(p & s & -> & Hp & Hs)].
    + rewrite splitext_undotted by done. simpl. apply str_app_nil_r.
    + rewrite splitext_dotted by done. done.
  - intros pre suf -> Hp Hs. by apply splitext_dotted.
  - intros Hnone. apply (splitext_undotted "" name); done.
  - intros dots rest -> Hd Hr. by apply splitext_undotted.
  - reflexivity.
Qed.

Lemma splitext_standard_witness :
  contains "/" "a.tar.gz" = false
  ∧ splitext "a.tar.gz" = ("a.tar", ".gz")
  ∧ fst (splitext "a.tar.gz") +:+ snd (splitext "a.tar.gz") = "a.tar.gz".
Proof.
  destruct (splitext_standard "a.tar.gz" eq_refl) as (Hcat & Hcut & _).
  split; [reflexivity|]. split; [|exact Hcat].
  apply (Hcut "a.tar" "gz"); reflexivity.
Defined.

(** C10: for a file name split into base name and extension, the name
    [{base}_{n}{extension}] built by the collision loop splits into the
    same extension again, whatever the counter [n] (so for every
    [n >= 1]), and therefore falls into the same category. *)
Theorem renamed_keeps_extension (name : string) (n : nat) :
  contains "/" name = false →
  let '(base_name, file_extension) := splitext name in
  snd (splitext (renamed base_name n file_extension)) = file_extension
  ∧ get_category (snd (splitext (renamed base_name n file_extension)))
    = get_category file_extension.
Proof.
  intros Hsep.
  assert (let '(b, e) := splitext name in
          snd (splitext (renamed b n e)) = e) as Hext.
  { destruct (dot_shape name) as [(d & r & -> & Hd & Hr)|(p & s & -> & Hp & Hs)].
    - rewrite splitext_undotted by done. unfold renamed.
      rewrite contains_app in Hsep. apply orb_false_elim in Hsep as [Hsd Hsr].
      rewrite str_app_assoc, splitext_undotted; [done| |done|].
      + rewrite !contains_app, Hsd, Hsr, pretty_nat_contains
          by apply digit_not_sep.
        reflexivity.
      + rewrite !contains_app, Hr, pretty_nat_contains
          by apply digit_not_dot.
        reflexivity.
    - rewrite splitext_dotted by done. unfold renamed.
      rewrite contains_app in Hsep. apply orb_false_elim in Hsep as [Hsp Hss].
      replace (p +:+ "_" +:+ pretty n +:+ String "." s)
        with ((p +:+ "_" +:+ pretty n) +:+ String "." s)
        by (by rewrite !str_app_assoc).
      rewrite splitext_dotted; [done| |done|].
      + rewrite !contains_app, Hsp, Hss, pretty_nat_contains
          by apply digit_not_sep.
        reflexivity.
      + by rewrite only_app, Hp. }
  destruct (splitext name) as [b e]. split; [exact Hext | by rewrite Hext].
Qed.

Lemma renamed_keeps_extension_witness :
  contains "/" "report.pdf" = false
  ∧ snd (splitext (renamed "report" 3 ".pdf")) = ".pdf"
  ∧ get_category (snd (splitext (renamed "report" 3 ".pdf")))
    = get_category ".pdf".
Proof.
  split; [reflexivity|].
  exact (renamed_keeps_extension "report.pdf" 3 eq_refl).
Defined.

End Splitting.

(* ===================================================================== *)
(** ** The classifier is a lookup with a default *)
(* ===================================================================== *)

Section Classification.
Import Text Classifier.

Lemma scan_found items category extensions e :
  clash_free items →
  (category, extensions) ∈ items → e ∈ extensions →
  scan e items = category.
Proof.
  induction items as [|[c x] rest IH]; simpl; intros Hfree Hrow He.
  - by apply elem_of_nil in Hrow.
  - destruct Hfree as [Hhead Hrest]. case_bool_decide as Hx.
    + apply elem_of_cons in Hrow as [[= <- <-]|Hrow]; [done|].
      rewrite Forall_forall in Hhead. specialize (Hhead e Hx).
      rewrite Forall_forall in Hhead. by destruct (Hhead _ Hrow).
    + apply elem_of_cons in Hrow as [[= <- <-]|Hrow]; [done|]. by apply IH.
Qed.

Lemma scan_default items e :
  (∀ category extensions, (category, extensions) ∈ items → e ∉ extensions) →
  scan e items = "Other".
Proof.
  induction items as [|[c x] rest IH]; simpl; intros Hnone; [done|].
  case_bool_decide as Hx.
  - by destruct (Hnone c x ltac:(left)).
  - apply IH. intros c' x' Hrow. apply (Hnone c'). by right.
Qed.

Lemma scan_is_named items e : scan e items ∈ items.*1 ++ ["Other"].
Proof.
  induction items as [|[c x] rest IH]; simpl.
  - by left.
  - case_bool_decide; [left | by right].
Qed.

Lemma CATEGORIES_clash_free : clash_free CATEGORIES.
Proof.
  unfold CATEGORIES, clash_free.
  repeat split; repeat (apply Forall_cons; split); try apply Forall_nil;
    simpl; apply (bool_decide_unpack _); vm_compute; exact I.
Qed.

(** The table is written in lower case. *)
Lemma CATEGORIES_lower :
  Forall (λ row, Forall (λ e, lower e = e) row.2) CATEGORIES.
Proof. unfold CATEGORIES. repeat (apply Forall_cons; split); by try apply Forall_nil. Qed.

(** C1: [get_category] is a function of the lower-cased extension alone.
    It returns the category of the row that holds the lower-cased
    extension, of which there is only one, and ["Other"] when no row
    holds it; the extensions of the table, however their letters are
    cased, get the category of their row. *)
Theorem get_category_lookup (E : string) :
  get_category E = scan (lower E) CATEGORIES
  ∧ (∀ category extensions,
       (category, extensions) ∈ CATEGORIES → lower E ∈ extensions →
       get_category E = category)
  ∧ (∀ c1 x1 c2 x2,
       (c1, x1) ∈ CATEGORIES → (c2, x2) ∈ CATEGORIES →
       lower E ∈ x1 → lower E ∈ x2 → c1 = c2)
  ∧ ((∀ category extensions,
        (category, extensions) ∈ CATEGORIES → lower E ∉ extensions) →
     get_category E = "Other")
  ∧ (∀ E', lower E' = lower E → get_category E' = get_category E)
  ∧ (∀ category extensions e,
       (category, extensions) ∈ CATEGORIES → e ∈ extensions →
       get_category e = category
       ∧ (lower E = e → get_category E = category)).
Proof.
  assert (∀ category extensions,
            (category, extensions) ∈ CATEGORIES → lower E ∈ extensions →
            get_category E = category) as Hfound.
  { intros c x Hrow He. unfold get_category.
    apply (scan_found _ c x); [apply CATEGORIES_clash_free | exact Hrow | exact He]. }
  split; [done|]. split; [exact Hfound|]. split; [|split; [|split]].
  - intros c1 x1 c2 x2 H1 H2 He1 He2.
    by rewrite <- (Hfound c1 x1 H1 He1), <- (Hfound c2 x2 H2 He2).
  - intros Hnone. by apply scan_default.
  - intros E' HE. unfold get_category. by rewrite HE.
  - intros c x e Hrow He. split.
    + pose proof CATEGORIES_lower as Hlow.
      rewrite Forall_forall in Hlow. specialize (Hlow _ Hrow).
      rewrite Forall_forall in Hlow. specialize (Hlow _ He). simpl in Hlow.
      unfold get_category. rewrite Hlow.
      apply (scan_found _ c x); [apply CATEGORIES_clash_free | done | done].
    + intros HE. apply (Hfound c x); [done | by rewrite HE].
Qed.

Lemma get_category_lookup_witness :
  lower ".JpG" ∈ [".jpg"; ".jpeg"; ".png"; ".gif"; ".bmp"; ".tiff"; ".webp"]
  ∧ get_category ".JpG" = "Images"
  ∧ get_category ".JPG" = "Images".
Proof.
  assert (("Images", [".jpg"; ".jpeg"; ".png"; ".gif"; ".bmp"; ".tiff"; ".webp"])
          ∈ CATEGORIES) as Hrow by left.
  assert (lower ".JpG" ∈ [".jpg"; ".jpeg"; ".png"; ".gif"; ".bmp"; ".tiff"; ".webp"])
    as He by left.
  destruct (get_category_lookup ".JpG") as (_ & Hfound & _ & _ & _ & Hcase).
  split; [exact He|]. split.
  - exact (Hfound _ _ Hrow He).
  - destruct (get_category_lookup ".JPG") as (_ & _ & _ & _ & _ & Hcase').
    exact (proj2 (Hcase' _ _ ".jpg" Hrow ltac:(left)) eq_refl).
Defined.

End Classification.

(* ===================================================================== *)
(** ** Directory listings *)
(* ===================================================================== *)

Section Listings.
Import Organizer.

Implicit Types (l : listing) (name item : string) (e : entry).

Lemma entry_of_elem name e l : entry_of name l = Some e → (name, e) ∈ l.
Proof.
  induction l as [|[n x] rest IH]; simpl; [done|].
  case_decide as Hn.
  - intros [= ->]. subst. left.
  - intros H. right. by apply IH.
Qed.

Lemma entry_of_named name l : is_Some (entry_of name l) ↔ name ∈ l.*1.
Proof.
  induction l as [|[n x] rest IH]; simpl.
  - split; [by intros [? ?] | by intros ?%elem_of_nil].
  - case_decide as Hn.
    + subst. split; [intros _; left | by eauto].
    + rewrite IH. split; [by right|].
      intros [?|?]%elem_of_cons; [by subst | done].
Qed.

Lemma entry_of_app name l l' :
  entry_of name (l ++ l') =
  match entry_of name l with Some e => Some e | None => entry_of name l' end.
Proof.
  induction l as [|[n x] rest IH]; simpl; [done|].
  by case_decide.
Qed.

Lemma entry_of_unlink name item l :
  entry_of name (unlink item l) =
  if decide (name = item) then None else entry_of name l.
Proof.
  induction l as [|[n x] rest IH]; simpl.
  - by case_decide.
  - destruct (decide (n = item)) as [->|Hni]; simpl.
    + rewrite IH. repeat case_decide; congruence.
    + rewrite IH. repeat case_decide; congruence.
Qed.

Lemma entry_of_replace name c e l :
  entry_of name (replace c e l) =
  if decide (name = c) then (λ _, e) <$> entry_of c l else entry_of name l.
Proof.
  induction l as [|[n x] rest IH]; simpl.
  - by case_decide.
  - destruct (decide (n = c)) as [->|Hnc]; simpl.
    + repeat case_decide; congruence.
    + rewrite IH. repeat case_decide; congruence.
Qed.

Lemma names_unlink item l : (unlink item l).*1 = filter (λ n, n ≠ item) l.*1.
Proof.
  induction l as [|[n x] rest IH]; [done|].
  cbn [unlink]. rewrite fmap_cons, filter_cons. cbn [fst].
  destruct (decide (n = item)) as [->|Hn].
  - by rewrite decide_False by (intros H; by apply H).
  - by rewrite decide_True, fmap_cons, IH by done.
Qed.

Lemma names_replace c e l : (replace c e l).*1 = l.*1.
Proof.
  induction l as [|[n x] rest IH]; [done|].
  cbn [replace]. case_decide; rewrite !fmap_cons; [done | by rewrite IH].
Qed.

Lemma isfile_spec l name :
  isfile l name = true ↔ ∃ data, entry_of name l = Some (File data).
Proof.
  unfold isfile. destruct (entry_of name l) as [[d| |]|]; split;
    try done; try (by intros [? ?]). by exists d.
Qed.

Lemma isdir_spec l name :
  isdir l name = true ↔ ∃ inside, entry_of name l = Some (Folder inside).
Proof.
  unfold isdir. destruct (entry_of name l) as [[|i|]|]; split;
    try done; try (by intros [? ?]). by exists i.
Qed.

(** The snapshot holds exactly the names that are regular files. *)
Lemma files_to_process_spec l name :
  name ∈ files_to_process l ↔ ∃ data, entry_of name l = Some (File data).
Proof.
  unfold files_to_process. rewrite list_elem_of_filter, <- isfile_spec.
  split; [by intros [?%Is_true_true ?]|].
  intros H. split; [by apply Is_true_true|].
  apply entry_of_named. apply isfile_spec in H as [d ->]. by eexists.
Qed.

Lemma files_to_process_NoDup l : well_formed l → NoDup (files_to_process l).
Proof. apply NoDup_filter. Qed.

End Listings.

(* ===================================================================== *)
(** ** Folder provisioning *)
(* ===================================================================== *)

Section Provisioning.
Import Classifier Organizer.

Variable mkdir_fault : string → option exn.

Implicit Types (l : listing) (name c : string) (out : list line).

Lemma extends_refl l : extends l l.
Proof. by repeat split. Qed.

Lemma extends_trans l1 l2 l3 : extends l1 l2 → extends l2 l3 → extends l1 l3.
Proof.
  intros (Ha & Hb & Hc) (Ha' & Hb' & Hc'). repeat split; eauto.
Qed.

Lemma makedirs_step c l l' :
  makedirs mkdir_fault c l = inr l' →
  (l' = l ∧ isdir l c = true)
  ∨ (l' = l ++ [(c, Folder ∅)] ∧ entry_of c l = None).
Proof.
  unfold makedirs, isdir.
  destruct (entry_of c l) as [[d|i|]|] eqn:E; try done.
  - intros [= <-]. by left.
  - destruct (mkdir_fault c); [done|]. intros [= <-]. by right.
Qed.

Lemma makedirs_extends c l l' :
  makedirs mkdir_fault c l = inr l' → extends l l' ∧ isdir l' c = true.
Proof.
  intros [[-> Hd]|[-> Hnone]]%makedirs_step; [split; [apply extends_refl|done]|].
  split; [repeat split|].
  - intros name e He. by rewrite entry_of_app, He.
  - intros name data. rewrite entry_of_app.
    destruct (entry_of name l); [done|]. simpl. by case_decide.
  - unfold well_formed. rewrite fmap_app. simpl. intros Hnd.
    apply NoDup_app. split; [done|]. split; [|apply NoDup_singleton].
    intros x Hx ->%list_elem_of_singleton.
    apply entry_of_named in Hx as [? Hx]. congruence.
  - unfold isdir. rewrite entry_of_app, Hnone. simpl. by rewrite decide_True.
Qed.

(** Ensuring a folder that is already there changes nothing and cannot
    fail, whatever the environment refuses. *)
Lemma makedirs_existing c l : isdir l c = true → makedirs mkdir_fault c l = inr l.
Proof.
  unfold isdir, makedirs. by destruct (entry_of c l) as [[| |]|].
Qed.

Lemma isdir_extends l l' c : extends l l' → isdir l c = true → isdir l' c = true.
Proof.
  intros (Ha & _) [i Hi]%isdir_spec. apply isdir_spec. exists i. by apply Ha.
Qed.

Lemma provision_ok names l out l1 out1 :
  provision mkdir_fault names l out = inr (l1, out1) →
  extends l l1
  ∧ (∀ c, c ∈ names → isdir l1 c = true)
  ∧ out1 = out ++ (Ensured <$> names).
Proof.
  revert l out. induction names as [|c names IH]; intros l out; simpl.
  - intros [= <- <-]. split; [apply extends_refl|]. split.
    + by intros c ?%elem_of_nil.
    + by rewrite app_nil_r.
  - destruct (makedirs mkdir_fault c l) as [e|l'] eqn:Hm; [done|].
    intros (Hext & Hall & ->)%IH.
    apply makedirs_extends in Hm as [Hext' Hc].
    split; [by eapply extends_trans|]. split.
    + intros c' [->|Hin]%elem_of_cons; [by eapply isdir_extends | by apply Hall].
    + by rewrite <- app_assoc.
Qed.

Lemma provision_raised names l out e l' out' :
  provision mkdir_fault names l out = inl (e, l', out') → extends l l'.
Proof.
  revert l out. induction names as [|c names IH]; intros l out; simpl; [done|].
  destruct (makedirs mkdir_fault c l) as [e'|l2] eqn:Hm.
  - intros [= <- <- <-]. apply extends_refl.
  - intros Hp%IH. apply makedirs_extends in Hm as [Hext _].
    by eapply extends_trans.
Qed.

Lemma provision_existing names l out :
  (∀ c, c ∈ names → isdir l c = true) →
  provision mkdir_fault names l out = inr (l, out ++ (Ensured <$> names)).
Proof.
  revert out. induction names as [|c names IH]; intros out Hall; simpl.
  - by rewrite app_nil_r.
  - rewrite makedirs_existing by (apply Hall; left).
    rewrite IH by (intros c' Hc'; apply Hall; by right).
    by rewrite <- app_assoc.
Qed.

End Provisioning.

(* ===================================================================== *)
(** ** The collision loop *)
(* ===================================================================== *)

Section Collisions.
Import Text Classifier Organizer.

Implicit Types (l : listing) (inside : gmap string inner).

Lemma app_cancel_r (a b e : string) : a +:+ e = b +:+ e → a = b.
Proof.
  revert b. induction a as [|x a IH]; intros [|y b] H; [done|..].
  - apply (f_equal String.length) in H.
    rewrite str_app_nil_l, str_app_cons in H. simpl in H. rewrite str_length_app in H. lia.
  - apply (f_equal String.length) in H.
    rewrite str_app_nil_l, str_app_cons in H. simpl in H. rewrite str_length_app in H. lia.
  - rewrite !str_app_cons in H. injection H as -> H. f_equal. by apply IH.
Qed.

(** Different counters give different names. *)
Lemma renamed_inj base_name file_extension :
  Inj (=) (=) (λ n, renamed base_name n file_extension).
Proof.
  intros n m H. unfold renamed in H.
  apply String.app_inj in H. apply String.app_inj in H.
  apply app_cancel_r in H. by apply pretty_nat_inj in H.
Qed.

(** More names of the shape [{base}_{k}{ext}] than the folder holds
    cannot all be in the folder. *)
Lemma renamed_pigeonhole inside base_name file_extension m :
  (∀ k, (1 ≤ k ≤ m)%nat →
        is_Some (inside !! renamed base_name k file_extension)) →
  (m ≤ size inside)%nat.
Proof.
  intros Hall.
  pose (names := (λ k, renamed base_name k file_extension) <$> seq 1 m).
  assert (NoDup names) as Hnd.
  { pose proof (renamed_inj base_name file_extension) as Hinj.
    apply (NoDup_fmap_2 _), NoDup_seq. }
  assert (list_to_set names ⊆ dom inside) as Hsub.
  { intros x [k [-> Hk]]%elem_of_list_to_set%list_elem_of_fmap.
    apply elem_of_dom, Hall. apply elem_of_seq in Hk. lia. }
  apply subseteq_size in Hsub.
  rewrite size_list_to_set, size_dom in Hsub by done.
  unfold names in Hsub. by rewrite length_fmap, length_seq in Hsub.
Qed.

(** What the loop returns does not exist, and every name it passed over
    does. *)
Lemma probe_spec bound l category base_name file_extension dst counter d :
  probe bound l category base_name file_extension dst counter = Some d →
  (d = dst ∧ exists_in l category dst = false)
  ∨ (exists_in l category dst = true
     ∧ ∃ n, (counter ≤ n)%nat
         ∧ d = renamed base_name n file_extension
         ∧ exists_in l category d = false
         ∧ ∀ k, (counter ≤ k < n)%nat →
             exists_in l category (renamed base_name k file_extension) = true).
Proof.
  revert dst counter. induction bound as [|bound IH]; intros dst counter; [done|].
  simpl. destruct (exists_in l category dst) eqn:Hdst.
  - intros [[-> Hfree]|(Hex & n & Hn & -> & Hfree & Hbelow)]%IH; right;
      (split; [done|]).
    + exists counter. repeat split; [lia|done|]. intros k Hk. lia.
    + exists n. repeat split; [lia|done|]. intros k Hk.
      destruct (decide (k = counter)) as [->|]; [done|]. apply Hbelow. lia.
  - intros [= <-]. by left.
Qed.

(** The bound is never reached. *)
Lemma probe_within_bound l category inside base_name file_extension b dst counter :
  entry_of category l = Some (Folder inside) →
  (1 ≤ counter)%nat →
  (exists_in l category dst = true →
   ∀ k, (1 ≤ k < counter)%nat →
        is_Some (inside !! renamed base_name k file_extension)) →
  (size inside + 1 ≤ b + (counter - 1))%nat →
  is_Some (probe (S b) l category base_name file_extension dst counter).
Proof.
  intros Hcat. revert dst counter.
  induction b as [|b IH]; intros dst counter Hc Hseen Hbudget.
  - simpl. destruct (exists_in l category dst) eqn:Hdst; [|by eexists].
    pose proof (renamed_pigeonhole inside base_name file_extension (counter - 1))
      as Hp.
    assert (counter - 1 ≤ size inside)%nat; [|lia].
    apply Hp. intros k Hk. apply Hseen; [done | lia].
  - cbn [probe]. destruct (exists_in l category dst) eqn:Hdst; [|by eexists].
    apply IH; [lia| |lia].
    intros Hnext k Hk. destruct (decide (k = counter)) as [->|].
    + unfold exists_in in Hnext. rewrite Hcat in Hnext.
      by apply bool_decide_eq_true in Hnext.
    + apply Hseen; [done | lia].
Qed.

Lemma probe_total l category base_name file_extension item :
  is_Some (probe (probe_bound l category) l category base_name file_extension item 1).
Proof.
  unfold probe_bound.
  destruct (entry_of category l) as [[d|inside|]|] eqn:Hcat;
    try (simpl; unfold exists_in; rewrite Hcat; by eexists).
  replace (size inside + 2)%nat with (S (size inside + 1)) by lia.
  eapply probe_within_bound; [done|lia| |lia].
  intros _ k Hk. lia.
Qed.

End Collisions.

(* ===================================================================== *)
(** ** One file at a time *)
(* ===================================================================== *)

Section Processing.
Import Text Classifier Organizer.

Variable move_fault : string → string → string → option exn.

Implicit Types (l : listing) (st : state) (item c : string).

Lemma kept_refl l : kept l l.
Proof. intros c inside name x Hc Hx. by exists inside. Qed.

Lemma kept_trans l1 l2 l3 : kept l1 l2 → kept l2 l3 → kept l1 l3.
Proof.
  intros H12 H23 c inside name x Hc Hx.
  destruct (H12 _ _ _ _ Hc Hx) as (inside' & Hc' & Hx'). eauto.
Qed.


Lemma move_done l item data c dst l' :
  move move_fault l item data c dst = inr l' →
  move_fault item c dst = None
  ∧ ∃ inside, entry_of c l = Some (Folder inside)
      ∧ l' = replace c (Folder (<[dst := Stored data]> inside)) (unlink item l).
Proof.
  unfold move. destruct (move_fault item c dst); [done|].
  destruct (entry_of c l) as [[d|inside|]|]; try done.
  intros [= <-]. eauto.
Qed.

(** A move touches the moved file and the folder it goes to, nothing else. *)
Lemma move_elsewhere l item data c dst l' name :
  move move_fault l item data c dst = inr l' →
  name ≠ item → name ≠ c → entry_of name l' = entry_of name l.
Proof.
  intros (_ & inside & Hc & ->)%move_done Hi Hn.
  by rewrite entry_of_replace, decide_False, entry_of_unlink, decide_False.
Qed.

Lemma move_folder l item data c dst l' d0 :
  entry_of item l = Some (File d0) →
  move move_fault l item data c dst = inr l' →
  ∃ inside, entry_of c l = Some (Folder inside)
    ∧ entry_of c l' = Some (Folder (<[dst := Stored data]> inside))
    ∧ entry_of item l' = None.
Proof.
  intros Hitem (_ & inside & Hc & ->)%move_done. exists inside.
  assert (c ≠ item) as Hne by congruence.
  split; [done|]. split.
  - by rewrite entry_of_replace, decide_True, entry_of_unlink, decide_False, Hc.
  - rewrite entry_of_replace, decide_False, entry_of_unlink, decide_True; done.
Qed.

Lemma deliver_disk st item data c dst :
  disk (deliver move_fault st item data c dst) = disk st
  ∨ move move_fault (disk st) item data c dst
    = inr (disk (deliver move_fault st item data c dst)).
Proof.
  unfold deliver. destruct (move move_fault (disk st) item data c dst) as [[t|t|t]|l'];
    [by left..|]. right. by destruct (moved_files_count st !! c).
Qed.

Lemma deliver_kept st item data c dst :
  entry_of item (disk st) = Some (File data) →
  exists_in (disk st) c dst = false →
  kept (disk st) (disk (deliver move_fault st item data c dst)).
Proof.
  intros Hitem Hfree.
  destruct (deliver_disk st item data c dst) as [->|Hmove]; [apply kept_refl|].
  intros c' inside' name x Hc' Hx.
  destruct (move_folder _ _ _ _ _ _ _ Hitem Hmove) as (inside & Hc & Hc2 & _).
  destruct (decide (c' = c)) as [->|Hne].
  - exists (<[dst := Stored data]> inside). split; [done|].
    assert (inside' = inside) as -> by congruence.
    unfold exists_in in Hfree. rewrite Hc in Hfree.
    apply bool_decide_eq_false in Hfree.
    rewrite lookup_insert_ne; [done|]. intros ->. apply Hfree. by eexists.
  - exists inside'. split; [|done].
    rewrite (move_elsewhere _ _ _ _ _ _ c' Hmove); [done| |done]. congruence.
Qed.


Lemma deliver_folders st item data c dst name :
  entry_of item (disk st) = Some (File data) →
  isdir (disk st) name = true →
  isdir (disk (deliver move_fault st item data c dst)) name = true.
Proof.
  intros Hitem Hname.
  destruct (deliver_disk st item data c dst) as [->|Hmove]; [done|].
  destruct (move_folder _ _ _ _ _ _ _ Hitem Hmove) as (inside & Hc & Hc2 & _).
  apply isdir_spec. destruct (decide (name = c)) as [->|Hne]; [by eexists|].
  apply isdir_spec in Hname as [i Hi]. exists i.
  rewrite (move_elsewhere _ _ _ _ _ _ name Hmove); [done| |done]. congruence.
Qed.


Lemma process_file_regular item st data base_name file_extension :
  entry_of item (disk st) = Some (File data) →
  splitext item = (base_name, file_extension) →
  ∃ dst,
    probe (probe_bound (disk st) (get_category file_extension)) (disk st)
      (get_category file_extension) base_name file_extension item 1 = Some dst
    ∧ exists_in (disk st) (get_category file_extension) dst = false
    ∧ process_file move_fault item st
      = Some (deliver move_fault st item data (get_category file_extension) dst).
Proof.
  intros Hitem Hsplit.
  destruct (probe_total (disk st) (get_category file_extension) base_name
              file_extension item) as [dst Hdst].
  exists dst. split; [done|]. split.
  - by apply probe_spec in Hdst as [[-> ?]|(_ & n & _ & -> & ? & _)].
  - unfold process_file, isdir. rewrite Hitem, Hsplit. simpl. by rewrite Hdst.
Qed.

Lemma process_file_skip item st :
  isfile (disk st) item = false → process_file move_fault item st = Some st.
Proof.
  unfold process_file, isfile.
  destruct (isdir (disk st) item && bool_decide (item ∈ all_categories_names));
    [done|].
  by destruct (entry_of item (disk st)) as [[| |]|].
Qed.

(** The loop body always comes back. *)
Lemma process_file_total item st : is_Some (process_file move_fault item st).
Proof.
  destruct (isfile (disk st) item) eqn:Hf.
  - apply isfile_spec in Hf as [data Hd].
    destruct (splitext item) as [b e] eqn:Hs.
    destruct (process_file_regular _ _ _ _ _ Hd Hs) as (dst & _ & _ & ->).
    by eexists.
  - rewrite process_file_skip by done. by eexists.
Qed.

Lemma process_all_total items st : is_Some (process_all move_fault items st).
Proof.
  revert st. induction items as [|item items IH]; intros st; simpl; [by eexists|].
  destruct (process_file_total item st) as [st' ->]. simpl. apply IH.
Qed.

Lemma process_file_kept item st st' :
  process_file move_fault item st = Some st' → kept (disk st) (disk st').
Proof.
  destruct (isfile (disk st) item) eqn:Hf.
  - apply isfile_spec in Hf as [data Hd].
    destruct (splitext item) as [b e] eqn:Hs.
    destruct (process_file_regular _ _ _ _ _ Hd Hs) as (dst & _ & Hfree & ->).
    intros [= <-]. by apply deliver_kept.
  - rewrite process_file_skip by done. intros [= <-]. apply kept_refl.
Qed.

Lemma process_file_folders item st st' name :
  process_file move_fault item st = Some st' →
  isdir (disk st) name = true → isdir (disk st') name = true.
Proof.
  destruct (isfile (disk st) item) eqn:Hf.
  - apply isfile_spec in Hf as [data Hd].
    destruct (splitext item) as [b e] eqn:Hs.
    destruct (process_file_regular _ _ _ _ _ Hd Hs) as (dst & _ & Hfree & ->).
    intros [= <-]. by apply deliver_folders.
  - rewrite process_file_skip by done. by intros [= <-].
Qed.

Lemma process_all_kept items st st' :
  process_all move_fault items st = Some st' → kept (disk st) (disk st').
Proof.
  revert st. induction items as [|item items IH]; intros st; simpl.
  - intros [= <-]. apply kept_refl.
  - destruct (process_file move_fault item st) as [st1|] eqn:H1; [|done]. simpl.
    intros H2%IH. apply process_file_kept in H1. by eapply kept_trans.
Qed.

Lemma process_all_folders items st st' name :
  process_all move_fault items st = Some st' →
  isdir (disk st) name = true → isdir (disk st') name = true.
Proof.
  revert st. induction items as [|item items IH]; intros st; simpl.
  - by intros [= <-].
  - destruct (process_file move_fault item st) as [st1|] eqn:H1; [|done]. simpl.
    intros H2 Hd. eapply IH; [done|]. by eapply process_file_folders.
Qed.

End Processing.

(* ===================================================================== *)
(** ** Counters and printed lines *)
(* ===================================================================== *)

Section Accounting.
Import Text Classifier Organizer.

Variable move_fault : string → string → string → option exn.

Implicit Types (l : listing) (st : state) (item c : string) (out : list line).




Lemma all_categories_names_eq :
  all_categories_names =
  ["Images"; "Documents"; "Audio"; "Video"; "Archives"; "Executables"; "Code";
   "Other"].
Proof. reflexivity. Qed.

Lemma initial_counts_lookup c :
  initial_counts !! c
  = if bool_decide (c ∈ all_categories_names) then Some 0%nat else None.
Proof.
  case_bool_decide as Hc.
  - rewrite all_categories_names_eq in Hc.
    repeat (apply elem_of_cons in Hc as [->|Hc]); try by vm_compute.
    by apply elem_of_nil in Hc.
  - apply not_elem_of_list_to_map_1.
    by rewrite <- list_fmap_compose, list_fmap_id.
Qed.

Lemma get_category_named ext : get_category ext ∈ all_categories_names.
Proof. apply scan_is_named. Qed.

Lemma initial_counts_key ext : initial_counts !! get_category ext = Some 0%nat.
Proof.
  rewrite initial_counts_lookup, bool_decide_eq_true_2; [done|].
  apply get_category_named.
Qed.

(** The loop body never changes which keys the dictionary has. *)
Lemma deliver_keys st item data c dst k :
  is_Some (moved_files_count (deliver move_fault st item data c dst) !! k)
  ↔ is_Some (moved_files_count st !! k).
Proof.
  unfold deliver.
  destruct (move move_fault (disk st) item data c dst) as [[t|t|t]|l']; [done..|].
  destruct (moved_files_count st !! c) as [n|] eqn:Hc; [|done]. simpl.
  destruct (decide (c = k)) as [->|Hne].
  - rewrite lookup_insert_eq, Hc. split; by eexists.
  - by rewrite lookup_insert_ne.
Qed.

Lemma process_file_keys item st st' k :
  process_file move_fault item st = Some st' →
  is_Some (moved_files_count st' !! k) ↔ is_Some (moved_files_count st !! k).
Proof.
  destruct (isfile (disk st) item) eqn:Hf.
  - apply isfile_spec in Hf as [data Hd].
    destruct (splitext item) as [b e] eqn:Hs.
    destruct (process_file_regular move_fault _ _ _ _ _ Hd Hs)
      as (dst & _ & _ & ->).
    intros [= <-]. apply deliver_keys.
  - rewrite process_file_skip by done. by intros [= <-].
Qed.

Lemma process_all_keys items st st' k :
  process_all move_fault items st = Some st' →
  is_Some (moved_files_count st' !! k) ↔ is_Some (moved_files_count st !! k).
Proof.
  revert st. induction items as [|item items IH]; intros st; simpl.
  - by intros [= <-].
  - destruct (process_file move_fault item st) as [st1|] eqn:H1; [|done]. simpl.
    intros H2. rewrite (IH _ H2). by eapply process_file_keys.
Qed.





End Accounting.

(* ===================================================================== *)
(** ** The whole run *)
(* ===================================================================== *)

Section WholeRun.
Import Text Classifier Organizer.

Variable mkdir_fault : string → option exn.
Variable move_fault : string → string → string → option exn.

Implicit Types (l : listing) (st : state) (item c : string) (out : list line).

Local Abbreviation organize := (organize_directory mkdir_fault move_fault).
Local Abbreviation provisioned l :=
  (provision mkdir_fault all_categories_names l [Starting; Ensuring]).

Lemma organize_raised l e l' out' :
  provisioned l = inl (e, l', out') →
  organize (Dir l) = Some (Result (Dir l') out' (Raised e)).
Proof. intros H. unfold organize_directory. by rewrite H. Qed.

Lemma organize_nothing l l1 out1 :
  provisioned l = inr (l1, out1) → files_to_process l1 = [] →
  organize (Dir l)
  = Some (Result (Dir l1)
            ((out1 ++ [Blank; Processing])
             ++ [NoFilesFound; Complete; SummaryHeader; NoFilesMoved;
                 SummaryFooter])
            (NothingToDo initial_counts)).
Proof. intros H Hnone. unfold organize_directory. by rewrite H, Hnone. Qed.

Lemma organize_finished l l1 out1 :
  provisioned l = inr (l1, out1) → files_to_process l1 ≠ [] →
  ∃ st,
    process_all move_fault (files_to_process l1)
      (State l1 initial_counts (out1 ++ [Blank; Processing])) = Some st
    ∧ organize (Dir l)
      = Some (Result (Dir (disk st))
                (printed st ++ summary (moved_files_count st))
                (Finished (moved_files_count st))).
Proof.
  intros H Hsome.
  destruct (process_all_total move_fault (files_to_process l1)
              (State l1 initial_counts (out1 ++ [Blank; Processing])))
    as [st Hst].
  exists st. split; [done|]. unfold organize_directory. rewrite H.
  destruct (files_to_process l1) as [|x xs] eqn:E; [done|].
  by rewrite Hst.
Qed.

(** Every call returns. *)
Lemma organize_total path : is_Some (organize path).
Proof.
  destruct path as [| |l]; [by eexists..|].
  destruct (provisioned l) as [[[e l'] out']|[l1 out1]] eqn:Hp.
  - rewrite (organize_raised _ _ _ _ Hp). by eexists.
  - destruct (files_to_process l1) as [|x xs] eqn:E.
    + rewrite (organize_nothing _ _ _ Hp E). by eexists.
    + destruct (organize_finished l l1 out1 Hp) as (st & _ & ->);
        [by rewrite E | by eexists].
Qed.


(** C3: when the path is missing or is not a directory the call prints
    the start line and the two error lines and returns: the path is left
    as it was, no folder is ensured, no file is handled or moved, and
    there are no counters. *)
Theorem not_a_directory_rejected (path : target) :
  (∀ l, path ≠ Dir l) →
  organize path
  = Some (Result path [Starting; ErrorNotADirectory; PleaseProvide] Rejected)
  ∧ ∀ r, organize path = Some r →
      final r = path
      ∧ how r = Rejected
      ∧ report r = ∅
      ∧ (∀ c, Ensured c ∉ output r)
      ∧ handled (output r) = []
      ∧ (∀ c, moves_into c (output r) = 0%nat).
Proof.
  intros Hnot. destruct path as [| |l]; [| |by destruct (Hnot l)].
  - split; [done|]. intros r [= <-]. repeat split; try done.
    intros c Hc. repeat (apply elem_of_cons in Hc as [?|Hc]; [done|]).
    by apply elem_of_nil in Hc.
  - split; [done|]. intros r [= <-]. repeat split; try done.
    intros c Hc. repeat (apply elem_of_cons in Hc as [?|Hc]; [done|]).
    by apply elem_of_nil in Hc.
Qed.

(** C4, amended: a run on a directory in which provisioning raises
    nothing has every category folder, ["Other"] included, in place
    before the first file is looked at, and still in place when it ends;
    a folder that is already there is accepted as it is. *)
Theorem folders_provisioned_first l r :
  organize (Dir l) = Some r →
  (∀ e, how r ≠ Raised e) →
  (∃ l1 st,
      provisioned l
      = inr (l1, [Starting; Ensuring] ++ (Ensured <$> all_categories_names))
      ∧ (∀ c, c ∈ all_categories_names → isdir l1 c = true)
      ∧ process_all move_fault (files_to_process l1)
          (State l1 initial_counts
             (([Starting; Ensuring] ++ (Ensured <$> all_categories_names))
              ++ [Blank; Processing])) = Some st
      ∧ final r = Dir (disk st)
      ∧ (∀ c, c ∈ all_categories_names → isdir (disk st) c = true))
  ∧ (∀ c l0, isdir l0 c = true → makedirs mkdir_fault c l0 = inr l0).
Proof.
  intros Hrun Hok. split; [|intros c l0; apply makedirs_existing].
  destruct (provisioned l) as [[[e l'] out']|[l1 out1]] eqn:Hp.
  - rewrite (organize_raised _ _ _ _ Hp) in Hrun. injection Hrun as <-.
    by destruct (Hok e).
  - destruct (provision_ok _ _ _ _ _ _ Hp) as (Hext & Hdirs & ->).
    exists l1. destruct (files_to_process l1) as [|x xs] eqn:E.
    + rewrite (organize_nothing _ _ _ Hp E) in Hrun. injection Hrun as <-.
      eexists. split; [done|]. split; [done|]. split; [done|]. by split.
    + destruct (organize_finished l l1 _ Hp) as (st & Hst & Hr);
        [by rewrite E|].
      rewrite Hr in Hrun. injection Hrun as <-. exists st.
      split; [done|]. split; [done|]. rewrite <- E. split; [done|].
      split; [done|]. intros c Hc.
      eapply process_all_folders; [exact Hst|]. by apply Hdirs.
Qed.







(** C9: whatever the extension, the category [get_category] returns is one
    of the names the run provisions and counts: it is a key of the
    dictionary when the loop starts and in every state the loop reaches,
    so the increment finds its key, and its folder is among those ensured
    before the loop. *)
Theorem category_is_always_a_key (file_extension : string) :
  get_category file_extension ∈ all_categories_names
  ∧ initial_counts !! get_category file_extension = Some 0%nat
  ∧ (∀ items l out st',
       process_all move_fault items (State l initial_counts out) = Some st' →
       is_Some (moved_files_count st' !! get_category file_extension))
  ∧ (∀ l l1 out1,
       provisioned l = inr (l1, out1) →
       isdir l1 (get_category file_extension) = true
       ∧ Ensured (get_category file_extension) ∈ out1)
  ∧ (∀ items l out st' item data dst l',
       process_all move_fault items (State l initial_counts out) = Some st' →
       move move_fault (disk st') item data (get_category file_extension) dst
       = inr l' →
       ∃ count,
         moved_files_count st' !! get_category file_extension = Some count
         ∧ deliver move_fault st' item data (get_category file_extension) dst
           = State l'
               (<[get_category file_extension := S count]>
                  (moved_files_count st'))
               (printed st'
                ++ [if decide (item ≠ dst)
                    then MovedRenamed item (get_category file_extension) dst
                    else Moved item (get_category file_extension)])).
Proof.
  assert (∀ items l out st',
            process_all move_fault items (State l initial_counts out) = Some st' →
            is_Some (moved_files_count st' !! get_category file_extension))
    as Hkey.
  { intros items l out st' Hrun.
    rewrite (process_all_keys move_fault _ _ _ _ Hrun). simpl.
    rewrite initial_counts_key. by eexists. }
  split; [apply get_category_named|]. split; [apply initial_counts_key|].
  split; [exact Hkey|]. split.
  - intros l l1 out1 (_ & Hdirs & ->)%provision_ok. split.
    + apply Hdirs, get_category_named.
    + apply elem_of_app. right. apply list_elem_of_fmap. eexists. split; [done|].
      apply get_category_named.
  - intros items l out st' item data dst l' Hrun Hmove.
    destruct (Hkey _ _ _ _ Hrun) as [count Hcount]. exists count.
    split; [done|]. unfold deliver. by rewrite Hmove, Hcount.
Qed.

End WholeRun.

(* ===================================================================== *)
(** ** The summary *)
(* ===================================================================== *)

Section Summary.
Import Classifier Organizer.

Implicit Types (counts : gmap string nat) (cats : list string).

Lemma StronglySorted_sublist {A} (R : relation A) (k l : list A) :
  k `sublist_of` l → StronglySorted R l → StronglySorted R k.
Proof.
  induction 1 as [|x k l Hsub IH|x k l Hsub IH]; intros Hl; [done|..].
  - apply StronglySorted_cons in Hl as [Hx Hl]. apply StronglySorted_cons.
    split; [|by apply IH].
    rewrite Forall_forall in Hx. apply Forall_forall. intros y Hy.
    apply Hx. by eapply elem_of_sublist.
  - apply StronglySorted_cons in Hl as [_ Hl]. by apply IH.
Qed.

Lemma sorted_keys_elem counts c : c ∈ sorted_keys counts ↔ is_Some (counts !! c).
Proof.
  unfold sorted_keys. rewrite merge_sort_Permutation, list_elem_of_fmap. split.
  - intros [[k v] [-> Hkv%elem_of_map_to_list]]. by eexists.
  - intros [v Hv]. exists (c, v). split; [done|]. by apply elem_of_map_to_list.
Qed.

Lemma sorted_keys_NoDup counts : NoDup (sorted_keys counts).
Proof.
  unfold sorted_keys. rewrite merge_sort_Permutation.
  apply NoDup_fst_map_to_list.
Qed.

Lemma sorted_keys_sorted counts : StronglySorted String.le (sorted_keys counts).
Proof. apply (StronglySorted_merge_sort _). Qed.

(** What the summary loop prints for a list of categories. *)
Lemma summary_loop_lines counts cats t :
  (∀ c n, CountLine c n ∈ (summary_loop counts cats t).1
          ↔ c ∈ cats ∧ counts !! c = Some n ∧ (0 < n)%nat)
  ∧ counted (summary_loop counts cats t).1 `sublist_of` cats
  ∧ Forall (λ ln, ∃ c n, ln = CountLine c n) (summary_loop counts cats t).1
  ∧ ((summary_loop counts cats t).2 = 0%nat
     ↔ t = 0%nat ∧ (summary_loop counts cats t).1 = []).
Proof.
  revert t. induction cats as [|k cats IH]; intros t.
  - simpl. split; [|split; [done|split; [done|]]].
    + intros c n. split; [by intros ?%elem_of_nil | by intros [?%elem_of_nil _]].
    + by split; [|intros [? _]].
  - cbn [summary_loop]. destruct (counts !! k) as [[|m]|] eqn:Hk.
    + destruct (IH t) as (Hin & Hsub & Hall & Hzero).
      split; [|split; [by apply sublist_cons|by split]].
      intros c n. rewrite Hin, elem_of_cons. split; [by intuition|].
      intros ([->|?] & Hc & Hn); [|done]. rewrite Hk in Hc. injection Hc as <-. lia.
    + specialize (IH (t + S m)%nat).
      destruct (summary_loop counts cats (t + S m)) as [lines total].
      destruct IH as (Hin & Hsub & Hall & Hzero). cbn [fst snd] in *.
      split; [|split; [|split]].
      * intros c n. rewrite !elem_of_cons, Hin. split.
        -- intros [[= -> ->]|(? & ? & ?)]; [|by auto].
           split; [by left|]. split; [done|lia].
        -- intros ([->|?] & Hc & Hn); [|by auto].
           left. rewrite Hk in Hc. by injection Hc as <-.
      * by apply sublist_skip.
      * apply Forall_cons. split; [by eauto|done].
      * split; [|by intros [_ ?]]. intros [? _]%Hzero. lia.
    + destruct (IH t) as (Hin & Hsub & Hall & Hzero).
      split; [|split; [by apply sublist_cons|by split]].
      intros c n. rewrite Hin, elem_of_cons. split; [by intuition|].
      intros ([->|?] & Hc & Hn); [|done]. by rewrite Hk in Hc.
Qed.

(** C7: the summary block is the two header lines, one count line for
    every category whose counter is positive, carrying that counter, in
    ascending order of the category names and without repetition, then the
    line saying that no files were moved exactly when there is no count
    line, which is when every counter is zero, then the footer. A run
    that reaches the loop ends with this block for its final counters; a
    run that finds the snapshot empty ends with the block that says that
    no files were moved, its counters all zero. *)
Theorem summary_sorted_nonzero :
  (∀ counts, ∃ lines,
     summary counts
     = [Complete; SummaryHeader] ++ lines
       ++ match lines with [] => [NoFilesMovedFromRoot] | _ => [] end
       ++ [SummaryFooter]
     ∧ Forall (λ ln, ∃ c n, ln = CountLine c n) lines
     ∧ StronglySorted String.le (counted lines)
     ∧ NoDup (counted lines)
     ∧ (∀ c n, CountLine c n ∈ lines ↔ counts !! c = Some n ∧ (0 < n)%nat)
     ∧ (lines = [] ↔ ∀ c n, counts !! c = Some n → n = 0%nat))
  ∧ (∀ mkdir_fault move_fault l r,
       organize_directory mkdir_fault move_fault (Dir l) = Some r →
       match how r with
       | Finished counts => ∃ before, output r = before ++ summary counts
       | NothingToDo counts =>
           (∀ c n, counts !! c = Some n → n = 0%nat)
           ∧ ∃ before,
               output r = before ++ [Complete; SummaryHeader; NoFilesMoved;
                                     SummaryFooter]
       | Rejected | Raised _ => True
       end).
Proof.
  split.
  - intros counts. unfold summary.
    destruct (summary_loop_lines counts (sorted_keys counts) 0)
      as (Hin & Hsub & Hall & Hzero).
    destruct (summary_loop counts (sorted_keys counts) 0) as [lines total].
    cbn [fst snd] in *. exists lines.
    assert (∀ c n, CountLine c n ∈ lines ↔ counts !! c = Some n ∧ (0 < n)%nat)
      as Hin'.
    { intros c n. rewrite Hin. split; [by intros (_ & ? & ?)|].
      intros [Hc Hn]. split; [|done]. apply sorted_keys_elem. by eexists. }
    split; [|split; [done|split; [|split; [|split; [done|]]]]].
    + f_equal. f_equal. case_decide as Ht.
      * apply Hzero in Ht as [_ ->]. done.
      * destruct lines; [|done]. by destruct Ht; apply Hzero.
    + apply (StronglySorted_sublist _ _ _ Hsub), sorted_keys_sorted.
    + eapply sublist_NoDup; eauto using sorted_keys_NoDup.
    + split.
      * intros -> c [|n] Hc; [done|].
        assert (CountLine c (S n) ∈ []) as ?%elem_of_nil; [|done].
        apply Hin'. split; [done|lia].
      * intros Hnone. destruct lines as [|ln lines]; [done|].
        apply Forall_cons in Hall as [(c & n & ->) _].
        destruct (proj1 (Hin' c n) ltac:(left)) as [Hc Hn].
        apply Hnone in Hc. lia.
  - intros mkdir_fault move_fault l r Hrun.
    destruct (provision mkdir_fault all_categories_names l [Starting; Ensuring])
      as [[[e l'] out']|[l1 out1]] eqn:Hp.
    + rewrite (organize_raised _ _ _ _ _ _ Hp) in Hrun. by injection Hrun as <-.
    + destruct (files_to_process l1) as [|x xs] eqn:E.
      * rewrite (organize_nothing _ _ _ _ _ Hp E) in Hrun. injection Hrun as <-.
        simpl. split.
        -- intros c n. rewrite initial_counts_lookup. by case_bool_decide; intros [= <-].
        -- exists ((out1 ++ [Blank; Processing]) ++ [NoFilesFound]).
           by rewrite <- !app_assoc.
      * destruct (organize_finished mkdir_fault move_fault l l1 out1 Hp)
          as (st & _ & Hr); [by rewrite E|].
        rewrite Hr in Hrun. injection Hrun as <-. simpl. by eexists.
Qed.

End Summary.

(* ===================================================================== *)
(** ** The theorems at work *)
(* ===================================================================== *)

Section Instances.
Import Text Classifier Organizer Demo.

(** The scenario of the three files: each lands in the folder of its
    category, the one whose name is taken under a new name, and the
    counters say so. *)
Example downloads_organised :
  ∃ r, organize_directory quiet_mkdir quiet_move (Dir downloads) = Some r
    ∧ stored (final r) "Images" "photo.JPG" = Some (Stored "p")
    ∧ stored (final r) "Documents" "notes.txt" = Some (Stored "old")
    ∧ stored (final r) "Documents" "notes_1.txt" = Some (Stored "n")
    ∧ stored (final r) "Other" "archive.unknowncustomext" = Some (Stored "a")
    ∧ files_to_process (match final r with Dir l => l | _ => [] end) = []
    ∧ report r !! "Documents" = Some 1%nat
    ∧ report r !! "Images" = Some 1%nat
    ∧ report r !! "Other" = Some 1%nat
    ∧ report r !! "Audio" = Some 0%nat
    ∧ counted (output r) = ["Documents"; "Images"; "Other"].
Proof. eexists. split; [vm_compute; reflexivity|]. by vm_compute. Qed.

(** A third file of the same name gets the next counter. *)
Example third_report :
  ∃ r, organize_directory quiet_mkdir quiet_move
         (Dir [ ("report.pdf", File "third");
                ("Documents", Folder {[ "report.pdf" := Stored "first";
                                        "report_1.pdf" := Stored "second" ]}) ])
       = Some r
    ∧ stored (final r) "Documents" "report.pdf" = Some (Stored "first")
    ∧ stored (final r) "Documents" "report_1.pdf" = Some (Stored "second")
    ∧ stored (final r) "Documents" "report_2.pdf" = Some (Stored "third")
    ∧ handled (output r) = ["report.pdf"]
    ∧ report r !! "Documents" = Some 1%nat.
Proof. eexists. split; [vm_compute; reflexivity|]. by vm_compute. Qed.

(** With [notes.txt] locked the run goes on and counts the other two. *)
Example downloads_with_a_locked_file :
  ∃ r, organize_directory quiet_mkdir locked_move (Dir downloads) = Some r
    ∧ handled (output r) = ["photo.JPG"; "notes.txt"; "archive.unknowncustomext"]
    ∧ filter (λ ln, is_failure ln) (output r)
      = [PermissionErrorMoving "notes.txt" "Documents" "denied"]
    ∧ report r !! "Documents" = Some 0%nat
    ∧ report r !! "Images" = Some 1%nat
    ∧ report r !! "Other" = Some 1%nat.
Proof.
  eexists. split; [vm_compute; reflexivity|]. by vm_compute.
Qed.

Lemma downloads_well_formed : well_formed downloads.
Proof. apply (bool_decide_unpack _). by vm_compute. Qed.


Lemma not_a_directory_rejected_witness :
  (∀ l, Absent ≠ Dir l)
  ∧ organize_directory quiet_mkdir quiet_move Absent
    = Some (Result Absent [Starting; ErrorNotADirectory; PleaseProvide] Rejected).
Proof.
  assert (∀ l, Absent ≠ Dir l) as Hnot by (intros l; discriminate).
  split; [exact Hnot|].
  exact (proj1 (not_a_directory_rejected quiet_mkdir quiet_move Absent Hnot)).
Defined.

(** C4 as stated fails: in a directory that holds a regular file named
    [Other], [os.makedirs] raises on that name, the exception leaves
    [organize_directory], and [Other] is still not a folder. *)
Lemma provisioning_stops_at_a_file : 
  organize_directory quiet_mkdir quiet_move (Dir taken)
  = Some (Result
            (Dir [ ("Other", File "x"); ("Images", Folder ∅);
                   ("Documents", Folder ∅); ("Audio", Folder ∅);
                   ("Video", Folder ∅); ("Archives", Folder ∅);
                   ("Executables", Folder ∅); ("Code", Folder ∅) ])
            [ Starting; Ensuring; Ensured "Images"; Ensured "Documents";
              Ensured "Audio"; Ensured "Video"; Ensured "Archives";
              Ensured "Executables"; Ensured "Code" ]
            (Raised (OSError "File exists")))
  ∧ ¬ (∀ l r,
         organize_directory quiet_mkdir quiet_move (Dir l) = Some r →
         ∀ c, c ∈ all_categories_names →
              ∃ l', final r = Dir l' ∧ isdir l' c = true).
Proof.
  split; [reflexivity|]. intros Hall.
  destruct (Hall taken _ eq_refl "Other") as (l' & Hfinal & Hdir).
  - rewrite all_categories_names_eq. do 7 right. left.
  - injection Hfinal as <-. discriminate Hdir.
Qed.

Lemma downloads_provisioned :
  provision quiet_mkdir all_categories_names downloads [Starting; Ensuring]
  = inr (downloads_ready,
         [Starting; Ensuring] ++ (Ensured <$> all_categories_names)).
Proof. reflexivity. Qed.

Lemma folders_provisioned_first_witness :
  ∃ r, organize_directory quiet_mkdir quiet_move (Dir downloads) = Some r
    ∧ (∀ e, how r ≠ Raised e)
    ∧ ∃ l', final r = Dir l' ∧ ∀ c, c ∈ all_categories_names → isdir l' c = true.
Proof.
  eexists. split; [vm_compute; reflexivity|].
  split; [intros e; discriminate|].
  destruct (folders_provisioned_first quiet_mkdir quiet_move downloads _
              ltac:(vm_compute; reflexivity) ltac:(intros e; discriminate))
    as [(l1 & st & _ & _ & _ & Hfinal & Hdirs) _].
  exists (disk st). split; [exact Hfinal | exact Hdirs].
Defined.



Lemma summary_sorted_nonzero_witness :
  ∃ r, organize_directory quiet_mkdir quiet_move (Dir downloads) = Some r
    ∧ ∃ counts before,
        how r = Finished counts ∧ output r = before ++ summary counts.
Proof.
  eexists. split; [vm_compute; reflexivity|].
  eexists. 
  destruct (proj2 summary_sorted_nonzero quiet_mkdir quiet_move downloads _
              ltac:(vm_compute; reflexivity)) as [before Hout].
  exists before. split; [reflexivity | exact Hout].
Defined.

Lemma category_is_always_a_key_witness :
  ∃ st', process_all quiet_move ["notes.txt"; "photo.JPG"]
           (State downloads_ready initial_counts []) = Some st'
    ∧ is_Some (moved_files_count st' !! get_category ".pdf").
Proof.
  eexists. split; [vm_compute; reflexivity|].
  destruct (category_is_always_a_key quiet_mkdir quiet_move ".pdf")
    as (_ & _ & Hkey & _).
  exact (Hkey ["notes.txt"; "photo.JPG"] downloads_ready [] _
           ltac:(vm_compute; reflexivity)).
Defined.

End Instances.

(* ===================================================================== *)
(** ** More on splitting and renaming *)
(* ===================================================================== *)

Section PathSplitting.
Import Text Classifier.

Lemma rfind_negative c (s : string) : rfind c s < 0 → contains c s = false.
Proof.
  induction s as [|x s IH]; [done|]. cbn [rfind contains].
  destruct (0 <=? rfind c s) eqn:E.
  - pose proof (rfind_lower_bound c s). lia.
  - destruct (Ascii.eqb x c); [lia|]. intros _. apply IH. lia.
Qed.

(** A found character splits the string at its last occurrence. *)
Lemma rfind_split c (p : string) :
  0 ≤ rfind c p →
  ∃ pre suf, p = pre +:+ String c suf
    ∧ contains c suf = false
    ∧ rfind c p = Z.of_nat (String.length pre).
Proof.
  induction p as [|x q IH]; [simpl; lia|]. cbn [rfind].
  destruct (0 <=? rfind c q) eqn:E.
  - intros _. destruct IH as (pre & suf & -> & Hsuf & Hlen); [lia|].
    exists (String x pre), suf. rewrite str_app_cons. split; [done|].
    split; [done|]. rewrite Hlen. simpl String.length. lia.
  - destruct (Ascii.eqb_spec x c) as [->|]; [|lia]. intros _.
    exists "", q. split; [done|]. split; [|done]. apply rfind_negative. lia.
Qed.

Lemma rfind_beyond c (pre suf : string) x :
  contains c suf = true →
  Z.of_nat (String.length pre) < rfind c (pre +:+ String x suf).
Proof.
  intros Hsuf.
  assert (0 ≤ rfind c suf) as Hpos.
  { destruct (Z_lt_le_dec (rfind c suf) 0) as [Hneg|]; [|done].
    apply rfind_negative in Hneg. congruence. }
  induction pre as [|y pre IH].
  - rewrite str_app_nil_l. cbn [rfind String.length].
    destruct (0 <=? rfind c suf) eqn:E; lia.
  - rewrite str_app_cons. cbn [rfind String.length].
    destruct (0 <=? rfind c (pre +:+ String x suf)) eqn:E; lia.
Qed.

(** What [splitext] returns for an arbitrary path. *)
Lemma splitext_shape (p : string) :
  splitext p = (p, "")
  ∨ ∃ pre suf, p = pre +:+ String "." suf
      ∧ splitext p = (pre, String "." suf)
      ∧ contains "." suf = false
      ∧ contains "/" suf = false.
Proof.
  unfold splitext. destruct (rfind "/" p <? rfind "." p) eqn:Hlt; [|by left].
  destruct (differs_within _ _ _ _); [|by left]. right.
  apply Z.ltb_lt in Hlt. pose proof (rfind_lower_bound "/" p) as Hsep.
  destruct (rfind_split "." p) as (pre & suf & Hp & Hsuf & Hdot); [lia|].
  exists pre, suf. split; [done|]. rewrite Hdot, Nat2Z.id. subst p.
  rewrite substring_prefix.
  rewrite str_length_app, Nat.add_comm, Nat.add_sub, substring_suffix.
  split; [done|]. split; [done|].
  destruct (contains "/" suf) eqn:Hs; [|done].
  pose proof (rfind_beyond "/" pre suf "." Hs) as Hb. lia.
Qed.

(** X1: for every path, separators allowed, [os.path.splitext] returns
    two pieces that concatenate to the path; the second is empty or starts
    at a dot and holds no further dot and no separator. *)
Theorem splitext_pieces (p : string) :
  (splitext p).1 +:+ (splitext p).2 = p
  ∧ ((splitext p).2 = ""
     ∨ ∃ suf, (splitext p).2 = String "." suf
         ∧ contains "." suf = false ∧ contains "/" suf = false).
Proof.
  destruct (splitext_shape p) as [->|(pre & suf & Hp & -> & Hd & Hs)]; simpl.
  - split; [apply str_app_nil_r | by left].
  - split; [done|]. right. by exists suf.
Qed.

(** The name the collision loop builds is never the name the file has. *)
Lemma renamed_differs item base_name file_extension n :
  splitext item = (base_name, file_extension) →
  renamed base_name n file_extension ≠ item.
Proof.
  intros Hsplit Heq.
  assert (base_name +:+ file_extension = item) as Hcat.
  { destruct (splitext_shape item) as [H|(pre & suf & Hp & H & _)];
      rewrite H in Hsplit; injection Hsplit as <- <-;
      [apply str_app_nil_r | done]. }
  rewrite <- Hcat in Heq. unfold renamed in Heq.
  apply String.app_inj in Heq. apply (f_equal String.length) in Heq.
  rewrite !str_length_app in Heq. simpl in Heq. lia.
Qed.

End PathSplitting.

(* ===================================================================== *)
(** ** More on one pass of the loop body *)
(* ===================================================================== *)

Section LoopBody.
Import Text Classifier Organizer.

Variable move_fault : string → string → string → option exn.

Implicit Types (l : listing) (st : state) (item c name : string).


(** X3: when the name of a file is taken, the counter the loop stops at is
    at most the number of names the folder holds. *)
Theorem collision_counter_bounded st item data base_name file_extension inside :
  entry_of item (disk st) = Some (File data) →
  splitext item = (base_name, file_extension) →
  entry_of (get_category file_extension) (disk st) = Some (Folder inside) →
  is_Some (inside !! item) →
  ∃ n, (1 ≤ n ≤ size inside)%nat
    ∧ process_file move_fault item st
      = Some (deliver move_fault st item data (get_category file_extension)
                (renamed base_name n file_extension)).
Proof.
  intros Hitem Hsplit Hcat Htaken.
  destruct (process_file_regular move_fault _ _ _ _ _ Hitem Hsplit)
    as (dst & Hprobe & _ & Hstep).
  assert (∀ name, exists_in (disk st) (get_category file_extension) name = true
                  ↔ is_Some (inside !! name)) as Hin.
  { intros name. unfold exists_in. rewrite Hcat. apply bool_decide_eq_true. }
  apply probe_spec in Hprobe as [[-> Hfree]|(_ & n & Hn & -> & _ & Hbelow)].
  { apply Hin in Htaken. congruence. }
  exists n. split; [|done]. split; [done|].
  pose (names := item :: ((λ k, renamed base_name k file_extension)
                          <$> seq 1 (n - 1))).
  assert (NoDup names) as Hnd.
  { apply NoDup_cons. split.
    - intros [k [Hk _]]%list_elem_of_fmap.
      by destruct (renamed_differs _ _ _ k Hsplit).
    - pose proof (renamed_inj base_name file_extension) as Hinj.
      apply (NoDup_fmap_2 _), NoDup_seq. }
  assert (list_to_set names ⊆ dom inside) as Hsub.
  { intros x [->|[k [-> Hk]]%list_elem_of_fmap]%elem_of_list_to_set%elem_of_cons;
      apply elem_of_dom; [done|].
    apply Hin, Hbelow. apply elem_of_seq in Hk. lia. }
  apply subseteq_size in Hsub.
  rewrite size_list_to_set, size_dom in Hsub by done.
  unfold names in Hsub. simpl in Hsub.
  rewrite length_fmap, length_seq in Hsub. lia.
Qed.

(** What the loop body does to the entries of the directory. *)

Lemma move_nothing_new l item data c dst l' name :
  move move_fault l item data c dst = inr l' →
  entry_of name l = None → entry_of name l' = None.
Proof.
  intros (_ & inside & Hc & ->)%move_done Hnone.
  rewrite entry_of_replace.
  destruct (decide (name = c)) as [->|]; [congruence|].
  rewrite entry_of_unlink. by case_decide.
Qed.

Lemma move_no_new_file l item data c dst l' name d :
  move move_fault l item data c dst = inr l' →
  entry_of name l' = Some (File d) → entry_of name l = Some (File d).
Proof.
  intros (_ & inside & Hc & ->)%move_done.
  rewrite entry_of_replace.
  destruct (decide (name = c)) as [->|].
  - by destruct (entry_of c (unlink item l)).
  - rewrite entry_of_unlink. by case_decide.
Qed.

Lemma move_well_formed l item data c dst l' :
  move move_fault l item data c dst = inr l' → well_formed l → well_formed l'.
Proof.
  intros (_ & inside & Hc & ->)%move_done. unfold well_formed.
  rewrite names_replace, names_unlink. apply NoDup_filter.
Qed.

(** A pass of the loop body either changes nothing on disk or is a move
    of a regular file into the folder of its category. *)
Lemma process_file_disk item st st' :
  process_file move_fault item st = Some st' →
  disk st' = disk st
  ∨ ∃ data dst,
      entry_of item (disk st) = Some (File data)
      ∧ exists_in (disk st) (category_of item) dst = false
      ∧ move move_fault (disk st) item data (category_of item) dst
        = inr (disk st').
Proof.
  destruct (isfile (disk st) item) eqn:Hf.
  - apply isfile_spec in Hf as [data Hd].
    destruct (splitext item) as [b e] eqn:Hs.
    destruct (process_file_regular move_fault _ _ _ _ _ Hd Hs)
      as (dst & _ & Hfree & ->).
    intros [= <-].
    destruct (deliver_disk move_fault st item data (get_category e) dst)
      as [?|Hmove]; [by left|].
    right. exists data, dst. unfold category_of. rewrite Hs. by simpl.
  - rewrite process_file_skip by done. intros [= <-]. by left.
Qed.

Lemma category_of_named item : category_of item ∈ all_categories_names.
Proof. apply get_category_named. Qed.

Lemma process_file_elsewhere item st st' name :
  process_file move_fault item st = Some st' →
  name ≠ item → name ∉ all_categories_names →
  entry_of name (disk st') = entry_of name (disk st).
Proof.
  intros [->|(data & dst & _ & _ & Hmove)]%process_file_disk Hne Hcat; [done|].
  eapply move_elsewhere; [done..|]. intros ->. apply Hcat, category_of_named.
Qed.

Lemma process_file_nothing_new item st st' name :
  process_file move_fault item st = Some st' →
  entry_of name (disk st) = None → entry_of name (disk st') = None.
Proof.
  intros [->|(data & dst & _ & _ & Hmove)]%process_file_disk; [done|].
  by eapply move_nothing_new.
Qed.

Lemma process_file_no_new_file item st st' name d :
  process_file move_fault item st = Some st' →
  entry_of name (disk st') = Some (File d) →
  entry_of name (disk st) = Some (File d).
Proof.
  intros [->|(data & dst & _ & _ & Hmove)]%process_file_disk; [done|].
  by eapply move_no_new_file.
Qed.

Lemma process_file_well_formed item st st' :
  process_file move_fault item st = Some st' →
  well_formed (disk st) → well_formed (disk st').
Proof.
  intros [->|(data & dst & _ & _ & Hmove)]%process_file_disk; [done|].
  by eapply move_well_formed.
Qed.

(** An entry that is neither a regular file nor named like a category is
    left alone, whichever item is processed. *)
Lemma process_file_bystander item st st' name :
  process_file move_fault item st = Some st' →
  isfile (disk st) name = false → name ∉ all_categories_names →
  entry_of name (disk st') = entry_of name (disk st).
Proof.
  intros Hstep Hnf Hcat. destruct (decide (name = item)) as [->|Hne].
  - rewrite process_file_skip in Hstep by done. by injection Hstep as <-.
  - by eapply process_file_elsewhere.
Qed.

End LoopBody.

(* ===================================================================== *)
(** ** More on provisioning *)
(* ===================================================================== *)

Section ProvisioningExactly.
Import Classifier Organizer.

Variable mkdir_fault : string → option exn.

Implicit Types (l : listing) (name c : string) (out : list line).



Lemma makedirs_refused c l e :
  makedirs mkdir_fault c l = inl e → ¬ ensurable mkdir_fault l c.
Proof.
  unfold makedirs, ensurable, isdir.
  destruct (entry_of c l) as [[d|i|]|] eqn:E; try done.
  - intros _ [?|[? _]]; done.
  - intros _ [?|[? _]]; done.
  - destruct (mkdir_fault c) eqn:F; [|done]. intros _ [?|[_ ?]]; done.
Qed.




(** Where and how the provisioning loop stops when [os.makedirs] raises. *)
Lemma provision_raised_at names l out e l' out' :
  provision mkdir_fault names l out = inl (e, l', out') →
  extends l l'
  ∧ ∃ done c rest, names = done ++ c :: rest
      ∧ out' = out ++ (Ensured <$> done)
      ∧ (∀ d, d ∈ done → isdir l' d = true)
      ∧ makedirs mkdir_fault c l' = inl e.
Proof.
  revert l out. induction names as [|c names IH]; intros l out; simpl; [done|].
  destruct (makedirs mkdir_fault c l) as [e'|l2] eqn:Hm.
  - intros [= <- <- <-]. split; [apply extends_refl|].
    exists [], c, names. rewrite app_nil_r. repeat split; [|done].
    by intros d ?%elem_of_nil.
  - intros (Hext & done & c' & rest & -> & -> & Hdirs & Hfail)%IH.
    apply makedirs_extends in Hm as [Hext2 Hc].
    split; [by eapply extends_trans|].
    exists (c :: done), c', rest. rewrite fmap_cons, <- app_assoc.
    repeat split; [|done].
    intros d [->|Hd]%elem_of_cons; [by eapply isdir_extends | by apply Hdirs].
Qed.

(** Provisioning never touches a name outside the list it is given. *)
Lemma makedirs_untouched c l l' name :
  makedirs mkdir_fault c l = inr l' → name ≠ c →
  entry_of name l' = entry_of name l.
Proof.
  intros [[-> _]|[-> _]]%makedirs_step Hne; [done|].
  rewrite entry_of_app. simpl. rewrite decide_False by done.
  by destruct (entry_of name l).
Qed.

Lemma provision_untouched names l out name :
  name ∉ names →
  match provision mkdir_fault names l out with
  | inl (_, l', _) | inr (l', _) => entry_of name l' = entry_of name l
  end.
Proof.
  revert l out. induction names as [|c names IH]; intros l out Hn; [done|].
  cbn [provision]. apply not_elem_of_cons in Hn as [Hne Hn].
  destruct (makedirs mkdir_fault c l) as [e|l2] eqn:Hm; [done|].
  specialize (IH l2 (out ++ [Ensured c]) Hn).
  destruct (provision mkdir_fault names l2 (out ++ [Ensured c]))
    as [[[e l'] o]|[l' o]]; rewrite IH; by eapply makedirs_untouched.
Qed.

End ProvisioningExactly.

(* ===================================================================== *)
(** ** More on the whole run *)
(* ===================================================================== *)

Section RunOutcomes.
Import Text Classifier Organizer.

Variable mkdir_fault : string → option exn.
Variable move_fault : string → string → string → option exn.

Implicit Types (l : listing) (st : state) (item c name : string).

Local Abbreviation organize := (organize_directory mkdir_fault move_fault).
Local Abbreviation provisioned l :=
  (provision mkdir_fault all_categories_names l [Starting; Ensuring]).


Lemma process_all_bystander items st st' name :
  process_all move_fault items st = Some st' →
  isfile (disk st) name = false → name ∉ all_categories_names →
  entry_of name (disk st') = entry_of name (disk st).
Proof.
  revert st. induction items as [|item items IH]; intros st; simpl.
  - by intros [= <-].
  - destruct (process_file move_fault item st) as [st1|] eqn:H1; [|done]. simpl.
    intros H2 Hnf Hcat.
    pose proof (process_file_bystander _ _ _ _ _ H1 Hnf Hcat) as Hsame.
    rewrite <- Hsame. apply IH; [done| |done]. unfold isfile. by rewrite Hsame.
Qed.

Lemma process_all_elsewhere items st st' name :
  process_all move_fault items st = Some st' →
  name ∉ items → name ∉ all_categories_names →
  entry_of name (disk st') = entry_of name (disk st).
Proof.
  revert st. induction items as [|item items IH]; intros st; simpl.
  - by intros [= <-].
  - destruct (process_file move_fault item st) as [st1|] eqn:H1; [|done]. simpl.
    intros H2 [Hne Hn]%not_elem_of_cons Hcat.
    rewrite (IH _ H2 Hn Hcat). by eapply process_file_elsewhere.
Qed.

Lemma process_all_nothing_new items st st' name :
  process_all move_fault items st = Some st' →
  entry_of name (disk st) = None → entry_of name (disk st') = None.
Proof.
  revert st. induction items as [|item items IH]; intros st; simpl.
  - by intros [= <-].
  - destruct (process_file move_fault item st) as [st1|] eqn:H1; [|done]. simpl.
    intros H2 Hnone. eapply IH; [done|]. by eapply process_file_nothing_new.
Qed.

Lemma process_all_no_new_file items st st' name d :
  process_all move_fault items st = Some st' →
  entry_of name (disk st') = Some (File d) →
  entry_of name (disk st) = Some (File d).
Proof.
  revert st. induction items as [|item items IH]; intros st; simpl.
  - by intros [= <-].
  - destruct (process_file move_fault item st) as [st1|] eqn:H1; [|done]. simpl.
    intros H2 Hf. eapply process_file_no_new_file; [done|]. by eapply IH.
Qed.

Lemma process_all_well_formed items st st' :
  process_all move_fault items st = Some st' →
  well_formed (disk st) → well_formed (disk st').
Proof.
  revert st. induction items as [|item items IH]; intros st; simpl.
  - by intros [= <-].
  - destruct (process_file move_fault item st) as [st1|] eqn:H1; [|done]. simpl.
    intros H2 Hwf. eapply IH; [done|]. by eapply process_file_well_formed.
Qed.

Lemma held_kept l l' c name x :
  kept l l' → held l c name = Some x → held l' c name = Some x.
Proof.
  unfold held. intros Hkept.
  destruct (entry_of c l) as [[d|inside|]|] eqn:Hc; try done. intros Hx.
  destruct (Hkept _ _ _ _ Hc Hx) as (inside' & -> & Hx'). done.
Qed.

(** Where one regular file is after the loop body has dealt with it. *)
Lemma process_file_fate item st st' data :
  (∀ c, c ∈ all_categories_names → isdir (disk st) c = true) →
  entry_of item (disk st) = Some (File data) →
  process_file move_fault item st = Some st' →
  (entry_of item (disk st') = Some (File data)
   ∧ ∃ dst e, move_fault item (category_of item) dst = Some e)
  ∨ (entry_of item (disk st') = None
     ∧ ∃ dst, held (disk st') (category_of item) dst = Some (Stored data)).
Proof.
  intros Hdirs Hitem Hstep. unfold category_of.
  destruct (splitext item) as [b e] eqn:Hs. cbn [snd].
  destruct (process_file_regular move_fault _ _ _ _ _ Hitem Hs)
    as (dst & _ & _ & Hstep').
  rewrite Hstep' in Hstep. injection Hstep as <-.
  pose proof (Hdirs (get_category e) (get_category_named e)) as Hc.
  apply isdir_spec in Hc as [inside Hc].
  destruct (move move_fault (disk st) item data (get_category e) dst)
    as [err|l'] eqn:Hmove.
  - left. split.
    + unfold deliver. rewrite Hmove. by destruct err.
    + unfold move in Hmove.
      destruct (move_fault item (get_category e) dst) as [err'|] eqn:Hf;
        [by eauto|]. by rewrite Hc in Hmove.
  - right.
    destruct (move_folder move_fault _ _ _ _ _ _ _ Hitem Hmove)
      as (inside' & Hc1 & Hc2 & Hgone).
    assert (disk (deliver move_fault st item data (get_category e) dst) = l')
      as ->.
    { unfold deliver. rewrite Hmove. by destruct (moved_files_count st !! _). }
    split; [done|]. exists dst. unfold held. rewrite Hc2.
    apply lookup_insert_eq.
Qed.

Lemma process_all_fate items st st' :
  (∀ c, c ∈ all_categories_names → isdir (disk st) c = true) →
  NoDup items →
  process_all move_fault items st = Some st' →
  ∀ name data,
    name ∈ items → entry_of name (disk st) = Some (File data) →
    (entry_of name (disk st') = Some (File data)
     ∧ ∃ dst e, move_fault name (category_of name) dst = Some e)
    ∨ (entry_of name (disk st') = None
       ∧ ∃ dst, held (disk st') (category_of name) dst = Some (Stored data)).
Proof.
  revert st. induction items as [|item items IH]; intros st Hdirs Hnd; simpl.
  - intros _ name data Hin. by apply elem_of_nil in Hin.
  - destruct (process_file move_fault item st) as [st1|] eqn:H1; [|done]. simpl.
    intros H2 name data Hin Hname. apply NoDup_cons in Hnd as [Hfresh Hnd].
    assert (name ∉ all_categories_names) as Hcat.
    { intros [i Hi]%Hdirs%isdir_spec. congruence. }
    assert (∀ c, c ∈ all_categories_names → isdir (disk st1) c = true) as Hdirs1.
    { intros c Hc. eapply process_file_folders; [done|]. by apply Hdirs. }
    apply elem_of_cons in Hin as [->|Hin].
    + destruct (process_file_fate _ _ _ _ Hdirs Hname H1)
        as [[Hstay Hwhy]|[Hgone [dst Hheld]]].
      * left. split; [|done].
        by rewrite (process_all_elsewhere _ _ _ _ H2 Hfresh Hcat).
      * right. split; [by eapply process_all_nothing_new|].
        exists dst. eapply held_kept; [|done]. by eapply process_all_kept.
    + apply (IH st1); [done..|].
      rewrite (process_file_elsewhere _ _ _ _ _ H1); [done| |done].
      by intros ->.
Qed.


(** X5: when [os.makedirs] raises, the call ends there: the folders of
    the categories before the failing one are in place, every other entry
    is as it was, regular files included, and nothing but the start
    lines and the lines of those folders has been printed. *)
Theorem provisioning_failure_is_clean l e l' out' :
  provisioned l = inl (e, l', out') →
  organize (Dir l) = Some (Result (Dir l') out' (Raised e))
  ∧ (∀ name d, entry_of name l' = Some (File d) ↔ entry_of name l = Some (File d))
  ∧ (∀ name, name ∉ all_categories_names → entry_of name l' = entry_of name l)
  ∧ ∃ done c rest,
      all_categories_names = done ++ c :: rest
      ∧ out' = [Starting; Ensuring] ++ (Ensured <$> done)
      ∧ (∀ d, d ∈ done → isdir l' d = true)
      ∧ ¬ ensurable mkdir_fault l' c.
Proof.
  intros Hp. split; [by apply organize_raised|].
  destruct (provision_raised_at _ _ _ _ _ _ _ Hp)
    as ((Hkeep & Hfiles & _) & done & c & rest & Hnames & Hout & Hdirs & Hfail).
  split; [|split].
  - intros name d. split; [apply Hfiles | apply Hkeep].
  - intros name Hn.
    pose proof (provision_untouched mkdir_fault all_categories_names l
                  [Starting; Ensuring] name Hn) as Hsame.
    by rewrite Hp in Hsame.
  - exists done, c, rest. repeat split; try done.
    by eapply makedirs_refused.
Qed.


(** X7: a run leaves alone every entry that is neither a regular file nor
    named like a category: other folders, special entries, and names that
    are not there stay as they are. *)
Theorem bystanders_untouched l :
  ∃ r l', organize (Dir l) = Some r ∧ final r = Dir l'
    ∧ ∀ name,
        isfile l name = false → name ∉ all_categories_names →
        entry_of name l' = entry_of name l.
Proof.
  pose proof (provision_untouched mkdir_fault all_categories_names l
                [Starting; Ensuring]) as Hprov.
  destruct (provisioned l) as [[[e l'] out']|[l1 out1]] eqn:Hp.
  - eexists _, l'. split; [by apply organize_raised|]. split; [done|].
    intros name _ Hn. by apply Hprov.
  - destruct (files_to_process l1) as [|x xs] eqn:E.
    + eexists _, l1. split; [by apply organize_nothing|]. split; [done|].
      intros name _ Hn. by apply Hprov.
    + destruct (organize_finished mkdir_fault move_fault l l1 out1 Hp)
        as (st & Hst & Hr); [by rewrite E|].
      eexists _, (disk st). split; [exact Hr|]. split; [done|].
      intros name Hnf Hn. rewrite <- (Hprov name Hn).
      apply (process_all_bystander _ _ _ _ Hst); [|done].
      cbn [disk]. unfold isfile in *. by rewrite (Hprov name Hn).
Qed.

(** X8: a run on a directory whose names are distinct ends with a
    directory whose names are distinct. *)
Theorem names_stay_distinct l :
  well_formed l →
  ∃ r l', organize (Dir l) = Some r ∧ final r = Dir l' ∧ well_formed l'.
Proof.
  intros Hwf.
  destruct (provisioned l) as [[[e l'] out']|[l1 out1]] eqn:Hp.
  - eexists _, l'. split; [by apply organize_raised|]. split; [done|].
    by apply (provision_raised _ _ _ _ _ _ _ Hp).
  - destruct (provision_ok _ _ _ _ _ _ Hp) as ((_ & _ & Hwf1) & _ & _).
    destruct (files_to_process l1) as [|x xs] eqn:E.
    + eexists _, l1. split; [by apply organize_nothing|]. split; [done|]. auto.
    + destruct (organize_finished mkdir_fault move_fault l l1 out1 Hp)
        as (st & Hst & Hr); [by rewrite E|].
      eexists _, (disk st). split; [exact Hr|]. split; [done|].
      apply (process_all_well_formed _ _ _ Hst). cbn [disk]. auto.
Qed.

End RunOutcomes.

(* ===================================================================== *)
(** ** Runs in which every move succeeds, and runs in which none does *)
(* ===================================================================== *)

Section ExtremeRuns.
Import Text Classifier Organizer.

Variable mkdir_fault : string → option exn.
Variable move_fault : string → string → string → option exn.

Implicit Types (l : listing) (st : state) (item c name : string).

Local Abbreviation organize := (organize_directory mkdir_fault move_fault).
Local Abbreviation provisioned l :=
  (provision mkdir_fault all_categories_names l [Starting; Ensuring]).

Lemma organize_settled mkdir' move' l :
  (∀ c, c ∈ all_categories_names → isdir l c = true) →
  files_to_process l = [] →
  organize_directory mkdir' move' (Dir l)
  = Some (Result (Dir l) nothing_to_do (NothingToDo initial_counts)).
Proof.
  intros Hdirs Hnone.
  by rewrite (organize_nothing mkdir' move' l l _
                (provision_existing mkdir' _ l _ Hdirs) Hnone).
Qed.

(** X9: when no move is refused, a run that got past provisioning leaves
    no regular file in the directory, and any further run on what it
    leaves creates nothing, moves nothing, and changes nothing, whatever
    the environment then refuses. *)
Theorem clean_run_is_final l l1 out1 :
  (∀ item c dst, move_fault item c dst = None) →
  well_formed l →
  provisioned l = inr (l1, out1) →
  ∃ r l', organize (Dir l) = Some r ∧ final r = Dir l'
    ∧ files_to_process l' = []
    ∧ ∀ mkdir' move',
        organize_directory mkdir' move' (Dir l')
        = Some (Result (Dir l') nothing_to_do (NothingToDo initial_counts)).
Proof.
  intros Hquiet Hwf Hp.
  destruct (provision_ok _ _ _ _ _ _ Hp) as ((_ & _ & Hwf1) & Hdirs & _).
  destruct (files_to_process l1) as [|x xs] eqn:E.
  - eexists _, l1. split; [by apply organize_nothing|]. split; [done|].
    split; [done|]. intros mkdir' move'. by apply organize_settled.
  - destruct (organize_finished mkdir_fault move_fault l l1 out1 Hp)
      as (st & Hst & Hr); [by rewrite E|].
    eexists _, (disk st). split; [exact Hr|]. split; [done|].
    assert (files_to_process (disk st) = []) as Hnone.
    { destruct (files_to_process (disk st)) as [|y ys] eqn:E'; [done|].
      assert (y ∈ files_to_process (disk st)) as Hy by (rewrite E'; left).
      apply files_to_process_spec in Hy as [d Hd].
      pose proof (process_all_no_new_file _ _ _ _ _ _ Hst Hd) as Hd1.
      destruct (process_all_fate move_fault (files_to_process l1)
                  (State l1 initial_counts (out1 ++ [Blank; Processing])) st
                  Hdirs (files_to_process_NoDup l1 (Hwf1 Hwf)) Hst y d)
        as [[_ (dst & e & He)]|[Hgone _]].
      - apply files_to_process_spec. by eexists.
      - exact Hd1.
      - rewrite Hquiet in He. discriminate He.
      - congruence. }
    split; [done|]. intros mkdir' move'. apply organize_settled; [|done].
    intros c Hc. eapply process_all_folders; [exact Hst|]. by apply Hdirs.
Qed.




End ExtremeRuns.

(* ===================================================================== *)
(** ** The further theorems at work *)
(* ===================================================================== *)

Section FurtherInstances.
Import Text Classifier Organizer Demo.

(** X11: [get_category] returns ["Other"] exactly for the extensions
    that, lower-cased, are in no row of the table. *)
Theorem fallback_only_outside_table (E : string) :
  get_category E = "Other"
  ↔ ∀ category extensions,
      (category, extensions) ∈ CATEGORIES → lower E ∉ extensions.
Proof.
  split; [|apply scan_default].
  intros Hother category extensions Hrow He.
  assert (get_category E = category) as Hcat.
  { unfold get_category.
    apply (scan_found _ category extensions);
      [apply CATEGORIES_clash_free | done | done]. }
  rewrite Hother in Hcat. subst category. clear -Hrow.
  assert (Forall (λ row : string * list string, row.1 ≠ "Other") CATEGORIES)
    as Hkeys by (repeat (apply Forall_cons; split); done || apply Forall_nil).
  rewrite Forall_forall in Hkeys. by apply (Hkeys _ Hrow).
Qed.

Lemma fallback_only_outside_table_witness :
  get_category ".unknowncustomext" = "Other"
  ∧ lower ".unknowncustomext" ∉ [".mp3"; ".wav"; ".aac"; ".flac"; ".ogg"; ".m4a"].
Proof.
  split; [reflexivity|].
  apply (proj1 (fallback_only_outside_table ".unknowncustomext") eq_refl "Audio").
  do 2 right. left.
Defined.


Lemma collision_counter_bounded_witness :
  entry_of "report.pdf" (disk colliding) = Some (File "new")
  ∧ splitext "report.pdf" = ("report", ".pdf")
  ∧ entry_of (get_category ".pdf") (disk colliding)
    = Some (Folder {[ "report.pdf" := Stored "old" ]})
  ∧ ∃ n, (1 ≤ n ≤ size ({[ "report.pdf" := Stored "old" ]} : gmap string inner))%nat
      ∧ process_file quiet_move "report.pdf" colliding
        = Some (deliver quiet_move colliding "report.pdf" "new"
                  (get_category ".pdf") (renamed "report" n ".pdf")).
Proof.
  split; [reflexivity|]. split; [reflexivity|]. split; [reflexivity|].
  exact (collision_counter_bounded quiet_move colliding "report.pdf" "new"
           "report" ".pdf" {[ "report.pdf" := Stored "old" ]}
           eq_refl eq_refl eq_refl (ex_intro _ (Stored "old") eq_refl)).
Defined.


Lemma taken_raises :
  provision quiet_mkdir all_categories_names taken [Starting; Ensuring]
  = inl (OSError "File exists",
         taken ++ [ ("Images", Folder ∅); ("Documents", Folder ∅);
                    ("Audio", Folder ∅); ("Video", Folder ∅);
                    ("Archives", Folder ∅); ("Executables", Folder ∅);
                    ("Code", Folder ∅) ],
         [ Starting; Ensuring; Ensured "Images"; Ensured "Documents";
           Ensured "Audio"; Ensured "Video"; Ensured "Archives";
           Ensured "Executables"; Ensured "Code" ]).
Proof. reflexivity. Qed.

Lemma provisioning_failure_is_clean_witness :
  ∃ l' out',
    provision quiet_mkdir all_categories_names taken [Starting; Ensuring]
    = inl (OSError "File exists", l', out')
    ∧ organize_directory quiet_mkdir quiet_move (Dir taken)
      = Some (Result (Dir l') out' (Raised (OSError "File exists")))
    ∧ entry_of "Other" l' = Some (File "x").
Proof.
  eexists _, _. split; [exact taken_raises|].
  destruct (provisioning_failure_is_clean quiet_mkdir quiet_move taken _ _ _
              taken_raises) as (Hrun & Hfiles & _).
  split; [exact Hrun|]. apply Hfiles. reflexivity.
Defined.


Lemma bystanders_untouched_witness :
  isfile downloads "sub" = false
  ∧ ("sub" ∉ all_categories_names)
  ∧ ∃ r l', organize_directory quiet_mkdir quiet_move (Dir downloads) = Some r
      ∧ final r = Dir l'
      ∧ entry_of "sub" l' = Some (Folder ∅).
Proof.
  assert ("sub" ∉ all_categories_names) as Hn
    by (apply (bool_decide_unpack _); vm_compute; exact I).
  split; [reflexivity|]. split; [exact Hn|].
  destruct (bystanders_untouched quiet_mkdir quiet_move downloads)
    as (r & l' & Hr & Hfinal & Hsame).
  exists r, l'. split; [exact Hr|]. split; [exact Hfinal|].
  rewrite (Hsame "sub" eq_refl Hn). reflexivity.
Defined.

Lemma names_stay_distinct_witness :
  well_formed downloads
  ∧ ∃ r l', organize_directory quiet_mkdir locked_move (Dir downloads) = Some r
      ∧ final r = Dir l' ∧ well_formed l'.
Proof.
  split; [exact downloads_well_formed|].
  exact (names_stay_distinct quiet_mkdir locked_move downloads
           downloads_well_formed).
Defined.

Lemma clean_run_is_final_witness :
  (∀ item c dst, quiet_move item c dst = None)
  ∧ well_formed downloads
  ∧ ∃ r l', organize_directory quiet_mkdir quiet_move (Dir downloads) = Some r
      ∧ final r = Dir l'
      ∧ files_to_process l' = []
      ∧ organize_directory quiet_mkdir locked_move (Dir l')
        = Some (Result (Dir l') nothing_to_do (NothingToDo initial_counts)).
Proof.
  assert (∀ item c dst, quiet_move item c dst = None) as Hquiet
    by (intros item c dst; reflexivity).
  split; [exact Hquiet|]. split; [exact downloads_well_formed|].
  destruct (clean_run_is_final quiet_mkdir quiet_move downloads _ _ Hquiet
              downloads_well_formed downloads_provisioned)
    as (r & l' & Hr & Hfinal & Hnone & Hagain).
  exists r, l'. split; [exact Hr|]. split; [exact Hfinal|].
  split; [exact Hnone | exact (Hagain quiet_mkdir locked_move)].
Defined.


End FurtherInstances.
